(** * The JOS kernel monitor (kern/monitor.c)

    A shallow embedding of the command interpreter of the kernel monitor:
    the tokenizer and dispatcher of [runcmd], the read-eval loop of
    [monitor], and the four registered handlers [mon_help], [mon_kerninfo],
    [mon_backtrace] and [mon_showmappings].

    Console output is kept as the sequence of [cprintf] calls the code
    makes (format string and arguments); everything the file takes from
    other compilation units (memory, the symbol resolver, the page-table
    walker, [strtol], the MMU constants) is a field of the record
    [Kernel]. *)

From Stdlib Require Import ZArith String Ascii List Bool Lia Sorted.
Import ListNotations.

Open Scope string_scope.
Open Scope list_scope.
Open Scope Z_scope.

(** ** Machine integers *)

Module Int.

Definition modulus : Z := 2 ^ 32.

(** [(uint32_t) x] *)
Definition uint32 (x : Z) : Z := x mod modulus.

(** [(int) x] *)
Definition int32 (x : Z) : Z :=
  let u := x mod modulus in
  if u <? 2 ^ 31 then u else u - modulus.

End Int.

Import Int.

(** Modelled from the spec: [PGSIZE], [ROUNDDOWN] and [ROUNDUP] come from
    inc/mmu.h and inc/types.h, which are not part of the sources at hand.
    The page size is 4096 bytes; begin is rounded down and end is rounded
    up to it, on 32-bit unsigned values. *)
Definition PGSIZE : Z := 4096.

Definition ROUNDDOWN (a n : Z) : Z :=
  let a' := uint32 a in uint32 (a' - a' mod n).

Definition ROUNDUP (a n : Z) : Z :=
  let n' := uint32 n in ROUNDDOWN (uint32 (uint32 a + n' - 1)) n'.

(** ** Characters and C strings *)

Definition NUL : ascii := Ascii.zero.
Definition TAB : ascii := ascii_of_nat 9.
Definition LF : ascii := ascii_of_nat 10.
Definition CR : ascii := ascii_of_nat 13.
Definition SPACE : ascii := ascii_of_nat 32.

Definition nl : string := String LF "".
Definition tab : string := String TAB "".

(** [#define WHITESPACE "\t\r\n "] *)
Definition WHITESPACE : string :=
  String TAB (String CR (String LF (String SPACE ""))).

(** [strchr(s, c) != NULL], for a character [c] that is not NUL. *)
Fixpoint strchr (s : string) (c : ascii) : bool :=
  match s with
  | EmptyString => false
  | String d s' => Ascii.eqb d c || strchr s' c
  end.

Arguments strchr : simpl never.

(** [*p] for a pointer into a buffer whose remaining bytes are [ahead];
    a buffer ends with its terminator. *)
Definition deref (ahead : list ascii) : ascii :=
  match ahead with
  | [] => NUL
  | c :: _ => c
  end.

Definition nonzero (c : ascii) : bool := negb (Ascii.eqb c NUL).

(** The C string that starts at offset [off] of [buf]. *)
Fixpoint cstring (l : list ascii) : string :=
  match l with
  | [] => EmptyString
  | c :: l' => if nonzero c then String c (cstring l') else EmptyString
  end.

Definition cstring_at (buf : list ascii) (off : nat) : string :=
  cstring (skipn off buf).

(** ** Console output *)

Inductive Arg : Type :=
| AInt (n : Z)
| AStr (s : string)
| ANull.

Record Call : Type := Cprintf { fmt : string; args : list Arg }.

Definition Console : Type := list Call.

(** ** What monitor.c takes from the rest of the kernel *)

Record Eipdebuginfo : Type := {
  eip_file : option string;
  eip_line : Z;
  eip_fn_name : option string;
  eip_fn_namelen : Z;
  eip_fn_addr : Z;
  eip_fn_narg : Z
}.

Record Kernel : Type := {
  (* inc/mmu.h, inc/memlayout.h *)
  PTE_P : Z;
  PTE_W : Z;
  PTE_U : Z;
  KERNBASE : Z;
  (* linker symbols *)
  sym_start : Z;
  sym_entry : Z;
  sym_etext : Z;
  sym_edata : Z;
  sym_end : Z;
  (* the machine *)
  read_ebp : Z;
  mem : Z -> Z;
  (* kern/kdebug.c: return code and the record as the call leaves it *)
  debuginfo_eip : Z -> Eipdebuginfo -> Z * Eipdebuginfo;
  (* lib/string.c: the value and the unparsed rest ([*endptr]) *)
  strtol : string -> Z -> Z * string;
  (* kern/pmap.c, on kern_pgdir: the page and the entry [*pte_p] *)
  page_lookup : Z -> option (Z * Z);
  page2pa : Z -> Z
}.

(** A 32-bit load at a byte address. *)
Definition load (k : Kernel) (a : Z) : Z := uint32 (mem k (uint32 a)).

(** ** The tokenizer of [runcmd]

    The line buffer is walked by one pointer; the bytes behind it are
    kept in reverse ([passed]), the bytes from it on in [ahead]. *)

Definition MAXARGS : nat := 16.

(** The loop that gobbles whitespace: while [*buf] is a whitespace
    character, overwrite it with the terminator and step over it. *)
Fixpoint gobble (passed ahead : list ascii) : list ascii * list ascii :=
  match ahead with
  | c :: rest =>
      if nonzero c && strchr WHITESPACE c
      then gobble (NUL :: passed) rest
      else (passed, ahead)
  | [] => (passed, ahead)
  end.

(** The loop that scans past an argument: step over [*buf] while it is
    neither the terminator nor a whitespace character. *)
Fixpoint scan (passed ahead : list ascii) : list ascii * list ascii :=
  match ahead with
  | c :: rest =>
      if nonzero c && negb (strchr WHITESPACE c)
      then scan (c :: passed) rest
      else (passed, ahead)
  | [] => (passed, ahead)
  end.

Inductive Parsed : Type :=
| TooMany
| Args (buf : list ascii) (argv : list nat).

(** The [while (1)] loop; [argc] is the length of [argv], whose entries
    are offsets into the buffer. *)
Fixpoint parse (fuel : nat) (passed ahead : list ascii) (argv : list nat)
  : option Parsed :=
  match fuel with
  | O => None
  | S fuel' =>
      let '(passed1, ahead1) := gobble passed ahead in
      if Ascii.eqb (deref ahead1) NUL
      then Some (Args (rev passed1 ++ ahead1) argv)
      else if Nat.eqb (length argv) (MAXARGS - 1)
      then Some TooMany
      else
        let '(passed2, ahead2) := scan passed1 ahead1 in
        parse fuel' passed2 ahead2 (argv ++ [length passed1])
  end.

Inductive Tokens : Type :=
| Overflow
| Argv (argv : list string).

(** The buffer [readline] hands over holds the line and its terminator;
    every outer iteration passes at least one byte. *)
Definition tokenize (line : string) : option Tokens :=
  let buf := list_ascii_of_string line ++ [NUL] in
  match parse (S (length buf)) [] buf [] with
  | Some TooMany => Some Overflow
  | Some (Args buf' argv) => Some (Argv (map (cstring_at buf') argv))
  | None => None
  end.

(** ** The handlers *)

(** [int func(int argc, char** argv, struct Trapframe* tf)]: a handler
    runs in a kernel, on a number of loop iterations it may spend, and
    gives its return value and what it printed, or nothing when the
    iterations do not suffice. The trap frame is used by no handler. *)
Definition Handler : Type :=
  Kernel -> nat -> Z -> list string -> option (Z * Console).

Record Command : Type := {
  name : string;
  desc : string;
  func : Handler
}.

(** The names and descriptions of the table [commands], which [mon_help]
    reads and which is itself built from the handlers. *)
Definition command_text : list (string * string) :=
  [ ("help", "Display this list of commands");
    ("kerninfo", "Display information about the kernel");
    ("backtrace", "Display backtrace");
    ("showmappings",
     "Display mappings between physical address and virtual address") ].

Definition mon_help : Handler := fun _ _ _ _ =>
  Some (0, map (fun c => Cprintf ("%s - %s" ++ nl) [AStr (fst c); AStr (snd c)])
               command_text).

Definition mon_kerninfo : Handler := fun k _ _ _ =>
  Some (0,
    [ Cprintf ("Special kernel symbols:" ++ nl) [];
      Cprintf ("  _start                  %08x (phys)" ++ nl)
              [AInt (sym_start k)];
      Cprintf ("  entry  %08x (virt)  %08x (phys)" ++ nl)
              [AInt (sym_entry k); AInt (uint32 (sym_entry k - KERNBASE k))];
      Cprintf ("  etext  %08x (virt)  %08x (phys)" ++ nl)
              [AInt (sym_etext k); AInt (uint32 (sym_etext k - KERNBASE k))];
      Cprintf ("  edata  %08x (virt)  %08x (phys)" ++ nl)
              [AInt (sym_edata k); AInt (uint32 (sym_edata k - KERNBASE k))];
      Cprintf ("  end    %08x (virt)  %08x (phys)" ++ nl)
              [AInt (sym_end k); AInt (uint32 (sym_end k - KERNBASE k))];
      Cprintf ("Kernel executable memory footprint: %dKB" ++ nl)
              [AInt (Z.quot (int32 (ROUNDUP (sym_end k - sym_entry k) 1024))
                            1024)] ]).

(** [memset(&info, 0, sizeof(struct Eipdebuginfo))] *)
Definition zero_info : Eipdebuginfo :=
  {| eip_file := None; eip_line := 0; eip_fn_name := None;
     eip_fn_namelen := 0; eip_fn_addr := 0; eip_fn_narg := 0 |}.

Definition arg_of_ptr (s : option string) : Arg :=
  match s with
  | Some s => AStr s
  | None => ANull
  end.

(** The line of one frame: [ebp], the return address at [ebp + 1] and the
    five words from [ebp + 2] on. *)
Definition frame_line (k : Kernel) (ebp : Z) : Console :=
  Cprintf "ebp %08x eip %08x args" [AInt ebp; AInt (load k (ebp + 4))]
  :: map (fun i => Cprintf " %08x" [AInt (load k (ebp + 4 * (2 + i)))])
         [0; 1; 2; 3; 4]
  ++ [Cprintf nl []].

(** What is printed after a successful lookup. *)
Definition symbol_line (eip : Z) (info : Eipdebuginfo) : Console :=
  [ Cprintf "%s:%d: " [arg_of_ptr (eip_file info); AInt (eip_line info)];
    Cprintf "%.*s" [AInt (eip_fn_namelen info); arg_of_ptr (eip_fn_name info)];
    Cprintf "+%d" [AInt (uint32 (eip - eip_fn_addr info))];
    Cprintf nl [] ].

(** One call of [debuginfo_eip]: the address and the record it is given. *)
Definition Lookup : Type := (Z * Eipdebuginfo)%type.

(** The [while (ebp)] loop. Beside the output, the calls of
    [debuginfo_eip] are recorded in the order they are made. *)
Fixpoint backtrace_loop (k : Kernel) (fuel : nat) (ebp : Z)
    (info : Eipdebuginfo) : option (Console * list Lookup) :=
  match fuel with
  | O => None
  | S fuel' =>
      if ebp =? 0 then Some ([], [])
      else
        let eip := load k (ebp + 4) in
        let (r, info') := debuginfo_eip k eip info in
        let sym := if r =? 0 then symbol_line eip info' else [] in
        match backtrace_loop k fuel' (load k ebp) info' with
        | Some (out, calls) =>
            Some (frame_line k ebp ++ sym ++ out, (eip, info) :: calls)
        | None => None
        end
  end.

Definition backtrace (k : Kernel) (fuel : nat)
  : option (Console * list Lookup) :=
  backtrace_loop k fuel (uint32 (read_ebp k)) zero_info.

Definition mon_backtrace : Handler := fun k fuel _ _ =>
  match backtrace k fuel with
  | Some (out, _) => Some (0, out)
  | None => None
  end.

(** [argv[i]] *)
Definition arg (argv : list string) (i : nat) : string :=
  nth i argv EmptyString.

(** [*endptr] *)
Definition deref_string (s : string) : ascii :=
  match s with
  | EmptyString => NUL
  | String c _ => c
  end.

(** [perm[i] = c] *)
Fixpoint store (perm : list ascii) (i : nat) (c : ascii) : list ascii :=
  match perm, i with
  | [], _ => []
  | _ :: rest, O => c :: rest
  | d :: rest, S i' => d :: store rest i' c
  end.

(** [const uint32_t PERM[10] = { PTE_P, PTE_U, PTE_W }] *)
Definition PERM (k : Kernel) : list Z :=
  [PTE_P k; PTE_U k; PTE_W k; 0; 0; 0; 0; 0; 0; 0].

(** The body of the inner [for] loop at index [i]. *)
Definition mark (k : Kernel) (pte : Z) (perm : list ascii) (i : nat)
  : list ascii :=
  if Z.land (nth (i / 2) (PERM k) 0) pte =? 0
  then store perm i "X"%char
  else perm.

(** [for (i = 0; i < perm_len; i += 2)], with [perm_len] the length 5 of
    the template. *)
Definition render (k : Kernel) (pte : Z) (perm : list ascii) : list ascii :=
  fold_left (mark k pte) [0; 2; 4]%nat perm.

Definition row (begin pa : Z) (perm : list ascii) : Call :=
  Cprintf ("%08x" ++ tab ++ "%08x" ++ tab ++ "%s" ++ nl)
          [AInt begin; AInt pa; AStr (cstring perm)].

Definition row_null (begin : Z) : Call :=
  Cprintf ("%08x" ++ tab ++ "%s" ++ tab ++ "%s" ++ nl)
          [AInt begin; AStr "NULL"; AStr "NULL"].

(** [for (; begin < end; begin += PGSIZE)]; the array [perm] is declared
    outside the loop and lives across its iterations. *)
Fixpoint showmappings_loop (k : Kernel) (fuel : nat) (begin end_ : Z)
    (perm : list ascii) : option Console :=
  match fuel with
  | O => None
  | S fuel' =>
      if begin <? end_ then
        let next := uint32 (begin + PGSIZE) in
        match page_lookup k begin with
        | Some (pp, pte) =>
            let perm' := render k pte perm in
            option_map (cons (row begin (page2pa k pp) perm'))
                       (showmappings_loop k fuel' next end_ perm')
        | None =>
            option_map (cons (row_null begin))
                       (showmappings_loop k fuel' next end_ perm)
        end
      else Some []
  end.

(** [char perm[10] = "P/U/W"] *)
Definition perm_template : list ascii :=
  list_ascii_of_string "P/U/W" ++ repeat NUL 5.

Definition table_header : Call :=
  Cprintf ("Virtual" ++ tab ++ "Physical" ++ tab ++ "Permission" ++ nl) [].

Definition wrong_address : option (Z * Console) :=
  Some (0, [Cprintf "Wrong address!" []]).

Definition mon_showmappings : Handler := fun k fuel argc argv =>
  if (argc =? 1) || (argc >? 3) then
    Some (0, [Cprintf ("Usage: showmappings BEGIN [END]" ++ nl) []])
  else if argc >? 1 then
    let (v1, endptr1) := strtol k (arg argv 1) 16 in
    let begin := ROUNDDOWN (uint32 v1) PGSIZE in
    if nonzero (deref_string endptr1) then wrong_address
    else
      let table (end_ : Z) :=
        option_map (fun rows => (0, table_header :: rows))
                   (showmappings_loop k fuel begin end_ perm_template) in
      if argc =? 2 then table (uint32 (begin + PGSIZE))
      else
        let (v2, endptr2) := strtol k (arg argv 2) 16 in
        if nonzero (deref_string endptr2) then wrong_address
        else table (ROUNDUP (uint32 v2) PGSIZE)
  else Some (0, []).

(** [static struct Command commands[]] *)
Definition commands : list Command :=
  [ {| name := "help";
       desc := "Display this list of commands";
       func := mon_help |};
    {| name := "kerninfo";
       desc := "Display information about the kernel";
       func := mon_kerninfo |};
    {| name := "backtrace";
       desc := "Display backtrace";
       func := mon_backtrace |};
    {| name := "showmappings";
       desc := "Display mappings between physical address and virtual address";
       func := mon_showmappings |} ].

(** ** The command interpreter *)

(** The [for] loop over the table: the first entry whose name compares
    equal to [argv[0]] is invoked. *)
Fixpoint lookup (cmds : list Command) (arg0 : string) : option Command :=
  match cmds with
  | [] => None
  | c :: rest => if String.eqb arg0 (name c) then Some c else lookup rest arg0
  end.

Definition unknown_command (arg0 : string) : Call :=
  Cprintf ("Unknown command '%s'" ++ nl) [AStr arg0].

Definition dispatch (cmds : list Command) (k : Kernel) (fuel : nat)
    (argv : list string) : option (Z * Console) :=
  match argv with
  | [] => Some (0, [])
  | arg0 :: _ =>
      match lookup cmds arg0 with
      | Some c => func c k fuel (Z.of_nat (length argv)) argv
      | None => Some (0, [unknown_command arg0])
      end
  end.

Definition too_many : Call :=
  Cprintf ("Too many arguments (max %d)" ++ nl) [AInt (Z.of_nat MAXARGS)].

(** [runcmd] over a table of commands. *)
Definition runcmd_with (cmds : list Command) (k : Kernel) (fuel : nat)
    (line : string) : option (Z * Console) :=
  match tokenize line with
  | None => None
  | Some Overflow => Some (0, [too_many])
  | Some (Argv argv) => dispatch cmds k fuel argv
  end.

Definition runcmd : Kernel -> nat -> string -> option (Z * Console) :=
  runcmd_with commands.

(** ** The monitor loop *)

(** How a run over the lines at hand ends: the loop was left by [break],
    or it is back in [readline] with nothing more to read. *)
Inductive Status : Type :=
| Exited
| Reading.

(** What was printed so far goes before what the rest of the run prints. *)
Definition after (out : Console) (run : option (Status * Console))
  : option (Status * Console) :=
  match run with
  | Some (st, out') => Some (st, out ++ out')
  | None => None
  end.

(** The [while (1)] loop of [monitor] over the successive results of
    [readline]; [None] is its null result. *)
Fixpoint monitor_loop (cmds : list Command) (k : Kernel) (fuel : nat)
    (input : list (option string)) : option (Status * Console) :=
  match input with
  | [] => Some (Reading, [])
  | None :: rest => monitor_loop cmds k fuel rest
  | Some buf :: rest =>
      match runcmd_with cmds k fuel buf with
      | None => None
      | Some (r, out) =>
          if r <? 0 then Some (Exited, out)
          else after out (monitor_loop cmds k fuel rest)
      end
  end.

Definition welcome : Console :=
  [ Cprintf ("Welcome to the JOS kernel monitor!" ++ nl) [];
    Cprintf ("Type 'help' for a list of commands." ++ nl) [] ].

Definition monitor_with (cmds : list Command) (k : Kernel) (fuel : nat)
    (input : list (option string)) : option (Status * Console) :=
  after welcome (monitor_loop cmds k fuel input).

Definition monitor : Kernel -> nat -> list (option string)
                     -> option (Status * Console) :=
  monitor_with commands.

(** ** The tokenizer as the specification words it

    A line is split on runs of tab, carriage return, newline and space;
    a token is a maximal run of other characters, and the line ends at
    its terminator. [cur] holds, in reverse, the token being read. *)

Definition flush (cur : list ascii) : list string :=
  match cur with
  | [] => []
  | _ :: _ => [string_of_list_ascii (rev cur)]
  end.

Fixpoint split_ws (cur : list ascii) (l : list ascii) : list string :=
  match l with
  | [] => flush cur
  | c :: l' =>
      if Ascii.eqb c NUL then flush cur
      else if strchr WHITESPACE c then flush cur ++ split_ws [] l'
      else split_ws (c :: cur) l'
  end.

Definition words (line : string) : list string :=
  split_ws [] (list_ascii_of_string line).

(** A character of a token: neither the terminator nor whitespace. *)
Definition tokchar (c : ascii) : bool :=
  nonzero c && negb (strchr WHITESPACE c).

Definition token (t : string) : Prop :=
  t <> EmptyString /\ forallb tokchar (list_ascii_of_string t) = true.

(** ** Examples and test kernels *)

(** Modelled from the spec: [strtol] of lib/string.c is not part of the
    sources at hand. An address string is read as a base-16 integer, digit
    by digit, and what remains after the last digit is handed back. *)
Definition hex_digit (c : ascii) : option Z :=
  let n := Z.of_nat (nat_of_ascii c) in
  if (48 <=? n) && (n <=? 57) then Some (n - 48)
  else if (97 <=? n) && (n <=? 102) then Some (n - 87)
  else if (65 <=? n) && (n <=? 70) then Some (n - 55)
  else None.

Fixpoint hex_digits (s : string) (val : Z) : Z * string :=
  match s with
  | EmptyString => (val, s)
  | String c s' =>
      match hex_digit c with
      | Some d => hex_digits s' (val * 16 + d)
      | None => (val, s)
      end
  end.

Definition strtol_hex (s : string) (base : Z) : Z * string :=
  let (val, rest) := hex_digits s 0 in (int32 val, rest).

(** A kernel with the MMU constants of the x86, the given memory, frame
    pointer, resolver and page table, and nothing else of interest. *)
Definition machine (ebp : Z) (m : Z -> Z)
    (dbg : Z -> Eipdebuginfo -> Z * Eipdebuginfo)
    (pages : Z -> option (Z * Z)) : Kernel :=
  {| PTE_P := 1; PTE_W := 2; PTE_U := 4;
     KERNBASE := 0xF0000000;
     sym_start := 0x0010000C; sym_entry := 0xF010000C;
     sym_etext := 0xF0101A75; sym_edata := 0xF0112300;
     sym_end := 0xF0112960;
     read_ebp := ebp; mem := m; debuginfo_eip := dbg;
     strtol := strtol_hex; page_lookup := pages;
     page2pa := fun pp => pp |}.

Definition no_symbols : Z -> Eipdebuginfo -> Z * Eipdebuginfo :=
  fun _ info => (-1, info).

Definition no_pages : Z -> option (Z * Z) := fun _ => None.

Definition idle : Kernel := machine 0 (fun _ => 0) no_symbols no_pages.

(** A table with a command whose handler returns a negative value other
    than -1. *)
Definition mon_halt : Handler := fun _ _ _ _ => Some (-2, []).

Definition halting : list Command :=
  [ {| name := "halt"; desc := "Leave the monitor"; func := mon_halt |} ].

(** ** Vocabulary of the statements *)

(** No call reports the overflow of the argument vector. *)
Definition quiet (out : Console) : bool :=
  forallb (fun c => negb (String.eqb (fmt c) (fmt too_many))) out.

(** A handler that, when it returns, returns 0 and has not reported an
    overflow of the argument vector. *)
Definition returns_zero (h : Handler) : Prop :=
  forall k fuel argc argv r out,
    h k fuel argc argv = Some (r, out) -> r = 0 /\ quiet out = true.


(** A frame-pointer chain: the frames met from [ebp] on, innermost first,
    up to the frame whose saved frame pointer is null. *)
Inductive chain (k : Kernel) : Z -> list Z -> Prop :=
| chain_end : chain k 0 []
| chain_frame (ebp : Z) (frames : list Z) :
    ebp <> 0 -> chain k (load k ebp) frames -> chain k ebp (ebp :: frames).

(** The frame pointers shown by the frame lines of an output. *)
Definition frame_pointers (out : Console) : list Z :=
  flat_map (fun c =>
              if String.eqb (fmt c) "ebp %08x eip %08x args"
              then match args c with
                   | AInt ebp :: _ => [ebp]
                   | _ => []
                   end
              else []) out.

(** What one frame contributes to the output: its line, and after it the
    symbol line of some record when the lookup succeeded. *)
Definition frame_block (k : Kernel) (ebp : Z) (block : Console) : Prop :=
  block = frame_line k ebp
  \/ exists info, block = frame_line k ebp ++ symbol_line (load k (ebp + 4)) info.

(** Every lookup is given the record as the lookup before it left it,
    starting from [info]. *)
Fixpoint threaded (k : Kernel) (info : Eipdebuginfo) (calls : list Lookup)
  : Prop :=
  match calls with
  | [] => True
  | (eip, given) :: rest =>
      given = info /\ threaded k (snd (debuginfo_eip k eip given)) rest
  end.

(** The virtual address a table row shows. *)
Definition row_va (c : Call) : Z :=
  match args c with
  | AInt va :: _ => va
  | _ => -1
  end.

(** [n] successive pages from [begin] on. *)
Fixpoint pages (begin : Z) (n : nat) : list Z :=
  match n with
  | O => []
  | S n' => begin :: pages (begin + PGSIZE) n'
  end.

(** A page-aligned 32-bit address. *)
Definition aligned (a : Z) : Prop :=
  0 <= a < modulus /\ a mod PGSIZE = 0.

(** The number of iterations of the loop over [begin, end_). *)
Definition page_count (begin end_ : Z) : Z :=
  if begin <? end_ then (end_ - begin) / PGSIZE else 0.

(** A frame that is its own caller. *)
Definition looping : Kernel :=
  machine 0x1000 (fun _ => 0x1000) no_symbols no_pages.

(** Three frames at 0x3000, 0x2000 and 0x1000; the word above a frame
    pointer holds the return address, the words above that the address they
    are stored at. *)
Definition three_frames_mem (a : Z) : Z :=
  if a =? 0x3000 then 0x2000
  else if a =? 0x2000 then 0x1000
  else if a =? 0x1000 then 0
  else if a =? 0x3004 then 0xF0100003
  else if a =? 0x2004 then 0xF0100002
  else if a =? 0x1004 then 0xF0100001
  else a.

(** A resolver that knows every address: function [f] of kern/init.c,
    which starts at 0xF0100000, at the line that is the offset into it. *)
Definition resolve_all : Z -> Eipdebuginfo -> Z * Eipdebuginfo :=
  fun eip _ =>
    (0, {| eip_file := Some "kern/init.c"; eip_line := eip - 0xF0100000;
           eip_fn_name := Some "f"; eip_fn_namelen := 1;
           eip_fn_addr := 0xF0100000; eip_fn_narg := 0 |}).

Definition three_frames : Kernel :=
  machine 0x3000 three_frames_mem resolve_all no_pages.

(** Two mapped pages: the one at 0x1000 present and writable, the one at
    0x2000 present, writable and open to the user. *)
Definition two_pages_table (va : Z) : option (Z * Z) :=
  if va =? 0x1000 then Some (0x5000, 0x5003)
  else if va =? 0x2000 then Some (0x6000, 0x6007)
  else None.

Definition two_pages : Kernel :=
  machine 0 (fun _ => 0) no_symbols two_pages_table.

(** A line of sixteen tokens whose first token is no command. *)
Definition crowded : string :=
  "frobnicate 1 2 3 4 5 6 7 8 9 10 11 12 13 14 15".

(** ** Vocabulary of further statements *)

(** The usage message of [mon_showmappings]. *)
Definition usage : Call :=
  Cprintf ("Usage: showmappings BEGIN [END]" ++ nl) [].

(** The lines read, without the null results of [readline]. *)
Definition lines (input : list (option string)) : list string :=
  flat_map (fun r => match r with Some l => [l] | None => [] end) input.

(** [new] is [orig] where some whitespace bytes were overwritten by the
    terminator, and nothing else was touched. *)
Definition blanked (orig new : list ascii) : Prop :=
  Forall2 (fun a b => b = a \/ (strchr WHITESPACE a = true /\ b = NUL))
          orig new.

(** The bytes of a buffer up to its terminator. *)
Definition cprefix (buf : list ascii) : list ascii :=
  list_ascii_of_string (cstring buf).

(** Some entry among [seen] lacks the flag. *)
Definition lacks (flag : Z) (seen : list Z) : bool :=
  existsb (fun pte => Z.land flag pte =? 0) seen.

(** The array [perm] once the entries [seen] were rendered into it. *)
Definition perm_of (k : Kernel) (seen : list Z) : list ascii :=
  [ if lacks (PTE_P k) seen then "X"%char else "P"%char; "/"%char;
    if lacks (PTE_U k) seen then "X"%char else "U"%char; "/"%char;
    if lacks (PTE_W k) seen then "X"%char else "W"%char ]
  ++ repeat NUL 5.

(** The rows of the table over [n] pages from [begin] on, when the mapped
    pages met before had the entries [seen], latest first. *)
Fixpoint table_rows (k : Kernel) (begin : Z) (n : nat) (seen : list Z)
  : Console :=
  match n with
  | O => []
  | S n' =>
      match page_lookup k begin with
      | Some (pp, pte) =>
          row begin (page2pa k pp) (perm_of k (pte :: seen))
          :: table_rows k (begin + PGSIZE) n' (pte :: seen)
      | None => row_null begin :: table_rows k (begin + PGSIZE) n' seen
      end
  end.

(** What the walk over the frames [frames] prints, when the record holds
    [info] before the first lookup. *)
Fixpoint backtrace_output (k : Kernel) (frames : list Z)
    (info : Eipdebuginfo) : Console :=
  match frames with
  | [] => []
  | ebp :: rest =>
      let eip := load k (ebp + 4) in
      let (r, info') := debuginfo_eip k eip info in
      frame_line k ebp
      ++ (if r =? 0 then symbol_line eip info' else [])
      ++ backtrace_output k rest info'
  end.

(** The number of line ends in a text, and in an output: the newline
    characters of the formats of its calls. *)
Fixpoint newlines (s : string) : nat :=
  match s with
  | EmptyString => 0
  | String c s' => (if Ascii.eqb c LF then 1 else 0) + newlines s'
  end.

Definition line_count (out : Console) : nat :=
  list_sum (map (fun c => newlines (fmt c)) out).

(** What a backtrace shows of the frames [frames], one block for each
    frame: the line with the frame pointer, the return address read one
    word above it and the five words above the return address; and after
    it, when the lookup of the return address returned 0, the line with
    the file, the line number, the name of the function by its length and
    the offset into the function, all from the record that lookup left.
    The record holds [info] before the first lookup. *)
Fixpoint frame_blocks (k : Kernel) (frames : list Z) (info : Eipdebuginfo)
  : list Console :=
  match frames with
  | [] => []
  | ebp :: rest =>
      let eip := load k (ebp + 4) in
      let (r, info') := debuginfo_eip k eip info in
      ([ Cprintf "ebp %08x eip %08x args" [AInt ebp; AInt eip];
         Cprintf " %08x" [AInt (load k (ebp + 8))];
         Cprintf " %08x" [AInt (load k (ebp + 12))];
         Cprintf " %08x" [AInt (load k (ebp + 16))];
         Cprintf " %08x" [AInt (load k (ebp + 20))];
         Cprintf " %08x" [AInt (load k (ebp + 24))];
         Cprintf nl [] ]
       ++ (if r =? 0
           then [ Cprintf "%s:%d: " [arg_of_ptr (eip_file info');
                                     AInt (eip_line info')];
                  Cprintf "%.*s" [AInt (eip_fn_namelen info');
                                  arg_of_ptr (eip_fn_name info')];
                  Cprintf "+%d" [AInt (uint32 (eip - eip_fn_addr info'))];
                  Cprintf nl [] ]
           else []))
      :: frame_blocks k rest info'
  end.

(** ** Facts about machine integers *)

Module IntFacts.

Lemma uint32_range (x : Z) : 0 <= uint32 x < modulus.
Proof. unfold uint32, modulus. apply Z.mod_pos_bound. lia. Qed.

Lemma uint32_small (x : Z) : 0 <= x < modulus -> uint32 x = x.
Proof. intros H. unfold uint32. apply Z.mod_small. exact H. Qed.

Lemma uint32_idem (x : Z) : uint32 (uint32 x) = uint32 x.
Proof. apply uint32_small, uint32_range. Qed.

End IntFacts.

Import IntFacts.

(** ** Facts about the tokenizer *)

Module TokenizerFacts.

Lemma deref_app (a b c : list ascii) :
  a <> [] -> deref (a ++ b) = deref (a ++ c).
Proof. destruct a; [congruence | reflexivity]. Qed.

Lemma tokchar_nonzero (c : ascii) : tokchar c = true -> nonzero c = true.
Proof. unfold tokchar. intros H. apply andb_prop in H. tauto. Qed.

Lemma nonzero_false (c : ascii) : nonzero c = false -> c = NUL.
Proof.
  unfold nonzero. intros H. apply negb_false_iff in H.
  now apply Ascii.eqb_eq.
Qed.

Lemma gobble_spec (ahead passed : list ascii) :
  exists zs rest,
    gobble passed ahead = (zs ++ passed, rest)
    /\ (length rest <= length ahead)%nat
    /\ split_ws [] ahead = split_ws [] rest
    /\ nonzero (deref rest) && strchr WHITESPACE (deref rest) = false
    /\ (tokchar (deref ahead) = false -> deref (rev zs ++ rest) = NUL).
Proof.
  revert passed. induction ahead as [|c ahead IH]; intros passed.
  - exists [], []. simpl. repeat split; auto.
  - simpl gobble.
    destruct (nonzero c && strchr WHITESPACE c) eqn:E.
    + destruct (IH (NUL :: passed)) as (zs & rest & Hg & Hl & Hs & Hd & _).
      exists (zs ++ [NUL]), rest. rewrite Hg. repeat split.
      * now rewrite <- app_assoc.
      * simpl. lia.
      * apply andb_prop in E. destruct E as [E1 E2].
        unfold nonzero in E1. apply negb_true_iff in E1.
        simpl. now rewrite E1, E2.
      * exact Hd.
      * intros _. now rewrite rev_app_distr.
    + exists [], (c :: ahead). simpl. repeat split; auto.
      unfold tokchar. intros H.
      destruct (nonzero c) eqn:Hc.
      * simpl in E, H. rewrite E in H. discriminate.
      * now apply nonzero_false.
Qed.

Lemma scan_spec (ahead passed cur : list ascii) :
  exists t rest,
    scan passed ahead = (rev t ++ passed, rest)
    /\ ahead = t ++ rest
    /\ forallb tokchar t = true
    /\ split_ws cur ahead = split_ws (rev t ++ cur) rest
    /\ tokchar (deref rest) = false.
Proof.
  revert passed cur. induction ahead as [|c ahead IH]; intros passed cur.
  - exists [], []. simpl. repeat split; auto.
  - simpl scan. fold (tokchar c).
    destruct (tokchar c) eqn:E.
    + destruct (IH (c :: passed) (c :: cur))
        as (t & rest & Hs & Ha & Ht & Hw & Hd).
      exists (c :: t), rest. rewrite Hs. simpl. repeat split.
      * now rewrite <- app_assoc.
      * now rewrite Ha.
      * now rewrite E, Ht.
      * unfold tokchar in E. apply andb_prop in E. destruct E as [E1 E2].
        unfold nonzero in E1. apply negb_true_iff in E1, E2.
        rewrite E1, E2, Hw. now rewrite <- app_assoc.
      * exact Hd.
    + exists [], (c :: ahead). simpl. repeat split; auto.
Qed.

(** At the end of a token the token is flushed. *)
Lemma split_ws_stop (cur rest : list ascii) :
  tokchar (deref rest) = false ->
  split_ws cur rest = flush cur ++ split_ws [] rest.
Proof.
  destruct rest as [|c rest]; simpl.
  - intros _. now rewrite app_nil_r.
  - unfold tokchar, nonzero. intros H.
    destruct (Ascii.eqb c NUL); [now rewrite app_nil_r|].
    simpl in H. apply negb_false_iff in H. now rewrite H.
Qed.

Lemma split_ws_terminator (l cur : list ascii) :
  split_ws cur (l ++ [NUL]) = split_ws cur l.
Proof.
  revert cur. induction l as [|c l IH]; intros cur; simpl.
  - reflexivity.
  - destruct (Ascii.eqb c NUL); [reflexivity|].
    destruct (strchr WHITESPACE c); now rewrite IH.
Qed.

Lemma split_ws_token (t rest cur : list ascii) :
  forallb tokchar t = true ->
  split_ws cur (t ++ rest) = split_ws (rev t ++ cur) rest.
Proof.
  revert cur. induction t as [|c t IH]; intros cur H; simpl in *.
  - reflexivity.
  - apply andb_prop in H. destruct H as [Hc Ht].
    unfold tokchar, nonzero in Hc. apply andb_prop in Hc.
    destruct Hc as [H1 H2]. apply negb_true_iff in H1, H2.
    rewrite H1, H2, IH by exact Ht. now rewrite <- app_assoc.
Qed.

Lemma cstring_token (t B : list ascii) :
  forallb tokchar t = true -> deref B = NUL ->
  cstring (t ++ B) = string_of_list_ascii t.
Proof.
  intros Ht HB. induction t as [|c t IH]; simpl in *.
  - destruct B as [|b B]; [reflexivity|].
    simpl in HB. subst b. reflexivity.
  - apply andb_prop in Ht. destruct Ht as [Hc Ht].
    rewrite (tokchar_nonzero _ Hc), IH by exact Ht. reflexivity.
Qed.

Lemma cstring_at_app (P B : list ascii) (o : nat) :
  cstring_at (P ++ B) (length P + o) = cstring_at B o.
Proof.
  unfold cstring_at. induction P as [|c P IH]; simpl; auto.
Qed.

(** One iteration of the outer loop that finds a token. *)
Lemma token_found (passed1 rest : list ascii) :
  Ascii.eqb (deref rest) NUL = false ->
  nonzero (deref rest) && strchr WHITESPACE (deref rest) = false ->
  exists t rest2,
    scan passed1 rest = (rev t ++ passed1, rest2)
    /\ rest = t ++ rest2
    /\ t <> []
    /\ forallb tokchar t = true
    /\ split_ws [] rest = string_of_list_ascii t :: split_ws [] rest2
    /\ tokchar (deref rest2) = false.
Proof.
  intros Hz Hw.
  destruct (scan_spec rest passed1 []) as (t & rest2 & Hs & Ha & Ht & Hsp & Hd).
  exists t, rest2. repeat split; auto.
  - intros ->. simpl in Ha. subst rest2.
    unfold tokchar, nonzero in *. rewrite Hz in *. simpl in *.
    rewrite Hw in Hd. discriminate.
  - rewrite Hsp, app_nil_r, split_ws_stop by exact Hd.
    destruct t as [|c t].
    + exfalso. simpl in Ha. subst rest2.
      unfold tokchar, nonzero in *. rewrite Hz in *. simpl in *.
      rewrite Hw in Hd. discriminate.
    + unfold flush. destruct (rev (c :: t)) eqn:E.
      * apply (f_equal (@length ascii)) in E.
        rewrite length_rev in E. discriminate.
      * rewrite <- E, rev_involutive. reflexivity.
Qed.

Lemma parse_args (fuel : nat) :
  forall (passed ahead : list ascii) (argv : list nat),
    (length ahead < fuel)%nat ->
    (length argv + length (split_ws [] ahead) <= 15)%nat ->
    exists B offs,
      parse fuel passed ahead argv
      = Some (Args (rev passed ++ B)
                   (argv ++ map (Nat.add (length passed)) offs))
      /\ map (cstring_at B) offs = split_ws [] ahead
      /\ (tokchar (deref ahead) = false -> deref B = NUL).
Proof.
  induction fuel as [|fuel IH]; intros passed ahead argv Hf Hn; [lia|].
  cbn [parse].
  destruct (gobble_spec ahead passed) as (zs & rest & Hg & Hl & Hs & Hd & Hz).
  rewrite Hg.
  destruct (Ascii.eqb (deref rest) NUL) eqn:E.
  - exists (rev zs ++ rest), []. repeat split.
    + now rewrite rev_app_distr, app_assoc, app_nil_r.
    + rewrite Hs. destruct rest as [|c rest]; [reflexivity|].
      simpl in *. now rewrite E.
    + exact Hz.
  - destruct (token_found (zs ++ passed) rest E Hd)
      as (t & rest2 & Hsc & Ha & Hne & Ht & Hsp & Hd2).
    rewrite Hs, Hsp in Hn. simpl in Hn.
    replace (Nat.eqb (length argv) (MAXARGS - 1)) with false
      by (symmetry; apply Nat.eqb_neq; unfold MAXARGS; simpl; lia).
    rewrite Hsc.
    destruct (IH (rev t ++ zs ++ passed) rest2
                 (argv ++ [length (zs ++ passed)])) as (B' & offs' & Hp & Hm & Hb).
    { subst rest. rewrite length_app in Hl. destruct t; [congruence|].
      simpl in Hl. lia. }
    { rewrite length_app. simpl. lia. }
    exists (rev zs ++ t ++ B'),
           (length zs :: map (Nat.add (length zs + length t)) offs').
    repeat split.
    + rewrite Hp. f_equal. f_equal.
      * rewrite !rev_app_distr, rev_involutive. now rewrite <- !app_assoc.
      * rewrite <- app_assoc. f_equal. simpl. f_equal.
        { rewrite length_app. lia. }
        rewrite map_map. apply map_ext. intros o.
        rewrite !length_app, length_rev. lia.
    + rewrite Hs, Hsp. simpl. f_equal.
      * replace (length zs) with (length (rev zs) + 0)%nat
          by (rewrite length_rev; lia).
        rewrite cstring_at_app. apply cstring_token; auto.
      * rewrite map_map. rewrite <- Hm. apply map_ext. intros o.
        replace (length zs + length t + o)%nat
          with (length (rev zs) + (length t + o))%nat
          by (rewrite length_rev; lia).
        now rewrite !cstring_at_app.
    + intros H. rewrite <- (Hz H). subst rest.
      destruct zs as [|z zs].
      * simpl. now apply deref_app.
      * apply deref_app. simpl. now destruct (rev zs).
Qed.

Lemma parse_overflow (fuel : nat) :
  forall (passed ahead : list ascii) (argv : list nat),
    (length ahead < fuel)%nat ->
    (length argv <= 15)%nat ->
    (15 < length argv + length (split_ws [] ahead))%nat ->
    parse fuel passed ahead argv = Some TooMany.
Proof.
  induction fuel as [|fuel IH]; intros passed ahead argv Hf Ha Hn; [lia|].
  cbn [parse].
  destruct (gobble_spec ahead passed) as (zs & rest & Hg & Hl & Hs & Hd & _).
  rewrite Hg.
  destruct (Ascii.eqb (deref rest) NUL) eqn:E.
  - exfalso. rewrite Hs in Hn. destruct rest as [|c rest].
    + simpl in Hn. lia.
    + simpl in E, Hn. rewrite E in Hn. simpl in Hn. lia.
  - destruct (token_found (zs ++ passed) rest E Hd)
      as (t & rest2 & Hsc & Hr & Hne & Ht & Hsp & Hd2).
    rewrite Hs, Hsp in Hn. simpl in Hn.
    destruct (Nat.eqb (length argv) (MAXARGS - 1)) eqn:Hc; [reflexivity|].
    apply Nat.eqb_neq in Hc. unfold MAXARGS in Hc. simpl in Hc.
    rewrite Hsc. apply IH.
    + subst rest. rewrite length_app in Hl. destruct t; [congruence|].
      simpl in Hl. lia.
    + rewrite length_app. simpl. lia.
    + rewrite length_app. simpl. lia.
Qed.

(** [tokenize] computes the words of the line, up to the capacity of the
    argument vector. *)
Lemma tokenize_words (line : string) :
  tokenize line
  = Some (if (length (words line) <=? 15)%nat
          then Argv (words line) else Overflow).
Proof.
  unfold tokenize, words.
  set (l := list_ascii_of_string line).
  pose proof (split_ws_terminator l []) as Hw.
  destruct (Nat.leb_spec (length (split_ws [] l)) 15) as [H|H].
  - destruct (parse_args (S (length (l ++ [NUL]))) [] (l ++ [NUL]) [])
      as (B & offs & Hp & Hm & _).
    + lia.
    + rewrite Hw. simpl. lia.
    + rewrite Hp. simpl. rewrite map_id, Hm, Hw. reflexivity.
  - rewrite parse_overflow; auto; simpl; try lia. rewrite Hw. lia.
Qed.

End TokenizerFacts.

(** ** Facts about the words of a line *)

Module WordsFacts.

Import TokenizerFacts.

Lemma chars_app (a b : string) :
  list_ascii_of_string (a ++ b)
  = list_ascii_of_string a ++ list_ascii_of_string b.
Proof. induction a as [|c a IH]; simpl; [reflexivity | now rewrite IH]. Qed.

Lemma forallb_rev {A : Type} (f : A -> bool) (l : list A) :
  forallb f l = true -> forallb f (rev l) = true.
Proof.
  rewrite !forallb_forall. intros H x Hx. apply H. now apply in_rev.
Qed.

Lemma flush_tokens (cur : list ascii) :
  forallb tokchar cur = true -> Forall token (flush cur).
Proof.
  intros H. destruct cur as [|c cur]; simpl; constructor; [|constructor].
  split.
  - intros E. apply (f_equal list_ascii_of_string) in E.
    rewrite list_ascii_of_string_of_list_ascii in E. simpl in E.
    now destruct (rev cur).
  - rewrite list_ascii_of_string_of_list_ascii.
    now apply (forallb_rev tokchar (c :: cur)).
Qed.

Lemma split_ws_tokens (l : list ascii) :
  forall cur, forallb tokchar cur = true -> Forall token (split_ws cur l).
Proof.
  induction l as [|c l IH]; intros cur H; simpl.
  - now apply flush_tokens.
  - destruct (Ascii.eqb c NUL) eqn:E1; [now apply flush_tokens|].
    destruct (strchr WHITESPACE c) eqn:E2.
    + apply Forall_app. split; [now apply flush_tokens | now apply IH].
    + apply IH. simpl. unfold tokchar at 1, nonzero. now rewrite E1, E2, H.
Qed.

Lemma words_tokens (line : string) : Forall token (words line).
Proof. now apply split_ws_tokens. Qed.

Lemma split_ws_one (t : string) (rest : list ascii) :
  token t -> tokchar (deref rest) = false ->
  split_ws [] (list_ascii_of_string t ++ rest) = t :: split_ws [] rest.
Proof.
  intros [Hne Ht] Hd.
  rewrite split_ws_token, app_nil_r, split_ws_stop by assumption.
  unfold flush. destruct (rev (list_ascii_of_string t)) eqn:E.
  - exfalso. apply Hne. apply (f_equal (@rev ascii)) in E.
    rewrite rev_involutive in E. simpl in E.
    rewrite <- (string_of_list_ascii_of_string t), E. reflexivity.
  - rewrite <- E, rev_involutive, string_of_list_ascii_of_string.
    reflexivity.
Qed.

(** Tokens joined by single spaces are found again. *)
Lemma words_join (ts : list string) :
  Forall token ts -> words (String.concat " " ts) = ts.
Proof.
  unfold words. induction 1 as [|t ts Ht Hts IH]; [reflexivity|].
  destruct ts as [|u ts].
  - simpl. rewrite <- (app_nil_r (list_ascii_of_string t)).
    now rewrite split_ws_one.
  - change (String.concat " " (t :: u :: ts))
      with (t ++ " " ++ String.concat " " (u :: ts))%string.
    rewrite !chars_app, split_ws_one; [|assumption|reflexivity].
    f_equal. exact IH.
Qed.

End WordsFacts.

(** ** Facts about the handlers *)

Module HandlerFacts.

Lemma quiet_app (a b : Console) :
  quiet (a ++ b) = quiet a && quiet b.
Proof. apply forallb_app. Qed.

Lemma backtrace_loop_quiet (k : Kernel) (fuel : nat) :
  forall ebp info out calls,
    backtrace_loop k fuel ebp info = Some (out, calls) -> quiet out = true.
Proof.
  induction fuel as [|fuel IH]; intros ebp info out calls H; [discriminate|].
  cbn [backtrace_loop] in H. destruct (ebp =? 0).
  - now injection H as <- <-.
  - destruct (debuginfo_eip k (load k (ebp + 4)) info) as [r info'].
    destruct (backtrace_loop k fuel (load k ebp) info')
      as [[out' calls']|] eqn:E; [|discriminate].
    injection H as <- <-. apply IH in E.
    change (quiet (frame_line k ebp
                   ++ (if r =? 0
                       then symbol_line (load k (ebp + 4)) info' else [])
                   ++ out') = true).
    rewrite !quiet_app, E. now destruct (r =? 0).
Qed.

Lemma showmappings_loop_quiet (k : Kernel) (fuel : nat) :
  forall begin end_ perm rows,
    showmappings_loop k fuel begin end_ perm = Some rows ->
    quiet rows = true.
Proof.
  induction fuel as [|fuel IH]; intros begin end_ perm rows H;
    [discriminate|].
  simpl in H. destruct (begin <? end_); [|now injection H as <-].
  destruct (page_lookup k begin) as [[pp pte]|];
    match type of H with
    | option_map _ ?l = _ =>
        destruct l as [rows'|] eqn:E; [|discriminate]
    end;
    injection H as <-; apply IH in E; simpl; exact E.
Qed.

Lemma mon_help_zero : returns_zero mon_help.
Proof. intros k fuel argc argv r out H. now injection H as <- <-. Qed.

Lemma mon_kerninfo_zero : returns_zero mon_kerninfo.
Proof. intros k fuel argc argv r out H. now injection H as <- <-. Qed.

Lemma mon_backtrace_zero : returns_zero mon_backtrace.
Proof.
  intros k fuel argc argv r out H. unfold mon_backtrace, backtrace in H.
  destruct (backtrace_loop k fuel (uint32 (read_ebp k)) zero_info)
    as [[out' calls]|] eqn:E; [|discriminate].
  injection H as <- <-. split; [reflexivity|].
  now apply backtrace_loop_quiet in E.
Qed.

Lemma mon_showmappings_zero : returns_zero mon_showmappings.
Proof.
  intros k fuel argc argv r out H. unfold mon_showmappings in H.
  assert (Htable : forall b e,
    option_map (fun rows => (0, table_header :: rows))
               (showmappings_loop k fuel b e perm_template) = Some (r, out) ->
    r = 0 /\ quiet out = true).
  { intros b e Ht.
    destruct (showmappings_loop k fuel b e perm_template) as [rows|] eqn:E;
      [|discriminate].
    injection Ht as <- <-. split; [reflexivity|].
    now apply showmappings_loop_quiet in E. }
  destruct ((argc =? 1) || (argc >? 3)); [now injection H as <- <-|].
  destruct (argc >? 1); [|now injection H as <- <-].
  destruct (strtol k (arg argv 1) 16) as [v1 e1].
  destruct (nonzero (deref_string e1)); [now injection H as <- <-|].
  destruct (argc =? 2); [now apply Htable in H|].
  destruct (strtol k (arg argv 2) 16) as [v2 e2].
  destruct (nonzero (deref_string e2)); [now injection H as <- <-|].
  now apply Htable in H.
Qed.

Lemma lookup_commands (arg0 : string) (c : Command) :
  lookup commands arg0 = Some c -> returns_zero (func c).
Proof.
  unfold commands. simpl.
  repeat match goal with
         | |- context [String.eqb ?a ?b] => destruct (String.eqb a b)
         end;
    intros H; try discriminate; injection H as <-; simpl.
  - exact mon_help_zero.
  - exact mon_kerninfo_zero.
  - exact mon_backtrace_zero.
  - exact mon_showmappings_zero.
Qed.

Lemma dispatch_commands (k : Kernel) (fuel : nat) (argv : list string)
    (r : Z) (out : Console) :
  dispatch commands k fuel argv = Some (r, out) ->
  r = 0 /\ quiet out = true.
Proof.
  unfold dispatch. destruct argv as [|arg0 argv].
  - intros H. now injection H as <- <-.
  - destruct (lookup commands arg0) as [c|] eqn:E.
    + apply (lookup_commands _ _ E).
    + intros H. now injection H as <- <-.
Qed.

Lemma runcmd_zero (k : Kernel) (fuel : nat) (line : string)
    (r : Z) (out : Console) :
  runcmd k fuel line = Some (r, out) -> r = 0.
Proof.
  unfold runcmd, runcmd_with.
  destruct (tokenize line) as [[|argv]|]; intros H.
  - now injection H as <- <-.
  - now apply dispatch_commands in H.
  - discriminate.
Qed.

Lemma lookup_none (cmds : list Command) (arg0 : string) :
  lookup cmds arg0 = None <-> ~ In arg0 (map name cmds).
Proof.
  induction cmds as [|c cmds IH]; simpl.
  - tauto.
  - destruct (String.eqb_spec arg0 (name c)) as [->|Hne].
    + split; [discriminate | tauto].
    + rewrite IH. split; [intros H [E|E]; [congruence | tauto] | tauto].
Qed.

End HandlerFacts.

(** ** Facts about the address range of [mon_showmappings] *)

Module RangeFacts.

Lemma rounddown_eq (a : Z) :
  ROUNDDOWN a PGSIZE = PGSIZE * (uint32 a / PGSIZE).
Proof.
  unfold ROUNDDOWN. pose proof (uint32_range a) as H.
  unfold uint32, modulus, PGSIZE in *.
  rewrite (Z.mod_small (_ - _)); Z.div_mod_to_equations; lia.
Qed.

Lemma rounddown_aligned (a : Z) : aligned (ROUNDDOWN a PGSIZE).
Proof.
  rewrite rounddown_eq. pose proof (uint32_range a) as H.
  unfold aligned, uint32, modulus, PGSIZE in *.
  split; Z.div_mod_to_equations; lia.
Qed.

Lemma roundup_eq (a : Z) :
  ROUNDUP a PGSIZE = PGSIZE * (uint32 (uint32 a + PGSIZE - 1) / PGSIZE).
Proof.
  unfold ROUNDUP. change (uint32 PGSIZE) with PGSIZE.
  now rewrite rounddown_eq, uint32_idem.
Qed.

Lemma roundup_aligned (a : Z) : aligned (ROUNDUP a PGSIZE).
Proof.
  unfold ROUNDUP. change (uint32 PGSIZE) with PGSIZE.
  apply rounddown_aligned.
Qed.

Lemma next_aligned (a : Z) : aligned a -> aligned (uint32 (a + PGSIZE)).
Proof.
  unfold aligned, uint32, modulus, PGSIZE. intros [H1 H2].
  split; Z.div_mod_to_equations; lia.
Qed.

(** Rounding leaves an aligned address where it is. *)
Lemma round_aligned (a : Z) :
  aligned a -> ROUNDDOWN a PGSIZE = a /\ ROUNDUP a PGSIZE = a.
Proof.
  intros [H1 H2]. rewrite roundup_eq, rounddown_eq.
  unfold uint32, modulus, PGSIZE in *.
  rewrite (Z.mod_small a) by lia.
  assert (a <= 2 ^ 32 - 4096) by (Z.div_mod_to_equations; lia).
  rewrite (Z.mod_small (a + 4096 - 1)) by lia.
  split; Z.div_mod_to_equations; lia.
Qed.

Lemma page_count_bound (b e : Z) :
  aligned b -> aligned e -> 0 <= page_count b e < 2 ^ 20.
Proof.
  unfold aligned, page_count, modulus, PGSIZE. intros [Hb1 Hb2] [He1 He2].
  destruct (Z.ltb_spec b e); [|lia].
  split; Z.div_mod_to_equations; lia.
Qed.

(** The loop over an aligned range ends, and prints one row for each of
    its pages. *)
Lemma loop_rows (k : Kernel) (fuel : nat) :
  forall (b e : Z) (perm : list ascii),
    aligned b -> aligned e ->
    page_count b e < Z.of_nat fuel ->
    exists rows,
      showmappings_loop k fuel b e perm = Some rows
      /\ map row_va rows = pages b (Z.to_nat (page_count b e)).
Proof.
  induction fuel as [|fuel IH]; intros b e perm Hb He Hf.
  - pose proof (page_count_bound b e Hb He). lia.
  - cbn [showmappings_loop]. unfold page_count in *.
    destruct (Z.ltb_spec b e) as [Hlt|Hge].
    + assert (Hstep : uint32 (b + PGSIZE) = b + PGSIZE /\ b + PGSIZE <= e).
      { destruct Hb as [Hb1 Hb2], He as [He1 He2].
        unfold uint32, modulus, PGSIZE in *.
        assert (b + 4096 <= e) by (Z.div_mod_to_equations; lia).
        split; [apply Z.mod_small|]; lia. }
      destruct Hstep as [Hn Hle].
      assert (Hcount : (e - b) / PGSIZE
                       = 1 + (if b + PGSIZE <? e
                              then (e - (b + PGSIZE)) / PGSIZE else 0)).
      { destruct Hb as [Hb1 Hb2], He as [He1 He2]. unfold PGSIZE in *.
        destruct (Z.ltb_spec (b + 4096) e);
          Z.div_mod_to_equations; lia. }
      pose proof (page_count_bound _ _ (next_aligned b Hb) He) as Hbd.
      unfold page_count in Hbd. rewrite Hn in *.
      assert (Hrows : forall perm', exists rows,
                 showmappings_loop k fuel (b + PGSIZE) e perm' = Some rows
                 /\ map row_va rows
                    = pages (b + PGSIZE)
                        (Z.to_nat (if b + PGSIZE <? e
                                   then (e - (b + PGSIZE)) / PGSIZE else 0))).
      { intros perm'. apply IH; auto.
        - rewrite <- Hn. now apply next_aligned.
        - lia. }
      rewrite Hcount, Z2Nat.inj_add by lia.
      change (Z.to_nat 1) with 1%nat. cbn [Nat.add pages].
      destruct (page_lookup k b) as [[pp pte]|].
      * destruct (Hrows (render k pte perm)) as (rows & -> & Hm).
        eexists. split; [reflexivity|]. simpl. now rewrite Hm.
      * destruct (Hrows perm) as (rows & -> & Hm).
        eexists. split; [reflexivity|]. simpl. now rewrite Hm.
    + exists []. split; reflexivity.
Qed.

(** 2^20 iterations are enough for any range. *)
Lemma showmappings_returns (k : Kernel) (fuel : nat) (argc : Z)
    (argv : list string) :
  2 ^ 20 <= Z.of_nat fuel ->
  exists out, mon_showmappings k fuel argc argv = Some (0, out).
Proof.
  intros Hf. unfold mon_showmappings.
  destruct ((argc =? 1) || (argc >? 3)); [eexists; reflexivity|].
  destruct (argc >? 1); [|eexists; reflexivity].
  destruct (strtol k (arg argv 1) 16) as [v1 e1].
  destruct (nonzero (deref_string e1)); [eexists; reflexivity|].
  pose proof (rounddown_aligned (uint32 v1)) as Hb.
  destruct (argc =? 2).
  - destruct (loop_rows k fuel _ _ perm_template Hb (next_aligned _ Hb))
      as (rows & -> & _).
    + pose proof (page_count_bound _ _ Hb (next_aligned _ Hb)). lia.
    + eexists. reflexivity.
  - destruct (strtol k (arg argv 2) 16) as [v2 e2].
    destruct (nonzero (deref_string e2)); [eexists; reflexivity|].
    pose proof (roundup_aligned (uint32 v2)) as He.
    destruct (loop_rows k fuel _ _ perm_template Hb He) as (rows & -> & _).
    + pose proof (page_count_bound _ _ Hb He). lia.
    + eexists. reflexivity.
Qed.

End RangeFacts.

(** ** Facts about the frame-pointer walk *)

Module BacktraceFacts.

Lemma frame_pointers_app (a b : Console) :
  frame_pointers (a ++ b) = frame_pointers a ++ frame_pointers b.
Proof. apply flat_map_app. Qed.

Lemma loop_unfold (k : Kernel) (fuel : nat) (ebp : Z)
    (info : Eipdebuginfo) :
  ebp <> 0 ->
  backtrace_loop k (S fuel) ebp info
  = let eip := load k (ebp + 4) in
    let (r, info') := debuginfo_eip k eip info in
    match backtrace_loop k fuel (load k ebp) info' with
    | Some (out, calls) =>
        Some (frame_line k ebp
              ++ (if r =? 0 then symbol_line eip info' else []) ++ out,
              (eip, info) :: calls)
    | None => None
    end.
Proof.
  intros H. cbn [backtrace_loop].
  destruct (Z.eqb_spec ebp 0); [contradiction | reflexivity].
Qed.

(** On a chain that ends, the walk ends, and prints the frames of the
    chain in order. *)
Lemma loop_chain (k : Kernel) (ebp : Z) (frames : list Z) :
  chain k ebp frames ->
  forall (fuel : nat) (info : Eipdebuginfo),
    (length frames < fuel)%nat ->
    exists out calls blocks,
      backtrace_loop k fuel ebp info = Some (out, calls)
      /\ frame_pointers out = frames
      /\ out = concat blocks
      /\ Forall2 (frame_block k) frames blocks.
Proof.
  induction 1 as [|ebp frames Hnz Hch IH]; intros fuel info Hf.
  - destruct fuel as [|fuel]; [simpl in Hf; lia|].
    exists [], [], []. repeat split. constructor.
  - destruct fuel as [|fuel]; [simpl in Hf; lia|].
    rewrite loop_unfold by exact Hnz. cbv zeta.
    destruct (debuginfo_eip k (load k (ebp + 4)) info) as [r info'].
    destruct (IH fuel info') as (out & calls & blocks & -> & Hp & Ho & Hb).
    { simpl in Hf. lia. }
    eexists. eexists.
    exists ((frame_line k ebp
             ++ (if r =? 0 then symbol_line (load k (ebp + 4)) info' else []))
            :: blocks).
    split; [reflexivity|]. split; [|split].
    + rewrite !frame_pointers_app, Hp. now destruct (r =? 0).
    + cbn [concat]. now rewrite <- app_assoc, Ho.
    + constructor; [|exact Hb]. unfold frame_block.
      destruct (r =? 0); [right; now exists info' | left; apply app_nil_r].
Qed.

Lemma loop_threaded (k : Kernel) (fuel : nat) :
  forall (ebp : Z) (info : Eipdebuginfo) out calls,
    backtrace_loop k fuel ebp info = Some (out, calls) ->
    threaded k info calls.
Proof.
  induction fuel as [|fuel IH]; intros ebp info out calls H; [discriminate|].
  cbn [backtrace_loop] in H. destruct (ebp =? 0).
  - injection H as <- <-. exact I.
  - destruct (debuginfo_eip k (load k (ebp + 4)) info) as [r info'] eqn:Ed.
    destruct (backtrace_loop k fuel (load k ebp) info')
      as [[out' calls']|] eqn:E; [|discriminate].
    injection H as <- <-. simpl. split; [reflexivity|].
    rewrite Ed. simpl. now apply IH in E.
Qed.

(** The frame that is its own caller is walked for ever. *)
Lemma loop_looping (fuel : nat) :
  forall info, backtrace_loop looping fuel 0x1000 info = None.
Proof.
  induction fuel as [|fuel IH]; intros info; [reflexivity|].
  rewrite loop_unfold by discriminate. cbv zeta.
  change (debuginfo_eip looping (load looping (4096 + 4)) info)
    with (-1, info).
  cbv beta iota. change (load looping 4096) with 4096. now rewrite IH.
Qed.

Lemma line_count_app (a b : Console) :
  line_count (a ++ b) = (line_count a + line_count b)%nat.
Proof. unfold line_count. now rewrite map_app, list_sum_app. Qed.

(** The walk along a chain prints the blocks of its frames. *)
Lemma loop_blocks (k : Kernel) (ebp : Z) (frames : list Z) :
  chain k ebp frames ->
  forall (fuel : nat) (info : Eipdebuginfo),
    (length frames < fuel)%nat ->
    option_map fst (backtrace_loop k fuel ebp info)
    = Some (concat (frame_blocks k frames info)).
Proof.
  induction 1 as [|ebp frames Hnz Hch IH]; intros fuel info Hf.
  - destruct fuel as [|fuel]; [simpl in Hf; lia | reflexivity].
  - destruct fuel as [|fuel]; [simpl in Hf; lia|].
    rewrite loop_unfold by exact Hnz.
    cbn [frame_blocks]. cbv zeta.
    destruct (debuginfo_eip k (load k (ebp + 4)) info) as [r info'].
    assert (Hf' : (length frames < fuel)%nat) by (simpl in Hf; lia).
    specialize (IH fuel info' Hf').
    destruct (backtrace_loop k fuel (load k ebp) info') as [[out calls]|];
      [|discriminate].
    simpl in IH. injection IH as ->.
    cbn [option_map fst concat]. rewrite <- app_assoc.
    destruct (r =? 0); reflexivity.
Qed.

(** One block for each frame, of one line or two. *)
Lemma blocks_lines (k : Kernel) (frames : list Z) :
  forall info,
    length (frame_blocks k frames info) = length frames
    /\ frame_pointers (concat (frame_blocks k frames info)) = frames
    /\ (length frames <= line_count (concat (frame_blocks k frames info))
        <= 2 * length frames)%nat
    /\ ((forall eip i, fst (debuginfo_eip k eip i) <> 0) ->
        line_count (concat (frame_blocks k frames info)) = length frames).
Proof.
  induction frames as [|ebp frames IH]; intros info.
  - repeat split; simpl; auto.
  - cbn [frame_blocks]. cbv zeta.
    pose proof (fun H : forall eip i, fst (debuginfo_eip k eip i) <> 0 =>
                  H (load k (ebp + 4)) info) as Hmiss.
    destruct (debuginfo_eip k (load k (ebp + 4)) info) as [r info'].
    destruct (IH info') as (Hl & Hp & Hn & Hm).
    cbn [concat length]. rewrite frame_pointers_app, line_count_app, Hl, Hp.
    destruct (Z.eqb_spec r 0) as [->|Hr].
    + repeat split; try reflexivity.
      * simpl. lia.
      * simpl. lia.
      * intros H. exfalso. now apply (Hmiss H).
    + repeat split; try reflexivity.
      * simpl. lia.
      * simpl. lia.
      * intros H. simpl. now rewrite (Hm H).
Qed.

End BacktraceFacts.

(** ** The tokenizer and the capacity of the argument vector *)

(** C6. On every line the tokenizer ends: it produces the argument
    vector exactly when the line has at most 15 words, and the vector then
    holds the words of the line, split on runs of tab, carriage return,
    newline and space. Every word is non-empty and free of whitespace, and
    the words joined by single spaces split into themselves; so an
    argument vector holds no empty token and, joined by single spaces,
    tokenizes to itself. The line of the specification gives a, b, c. *)
Theorem tokenize_collapses_whitespace :
  tokenize ("  a   b" ++ tab ++ "c" ++ nl) = Some (Argv ["a"; "b"; "c"])
  /\ forall line : string,
       tokenize line
       = Some (if (length (words line) <=? 15)%nat
               then Argv (words line) else Overflow)
       /\ Forall token (words line)
       /\ words (String.concat " " (words line)) = words line
       /\ tokenize line <> None
       /\ forall argv : list string,
            tokenize line = Some (Argv argv) ->
            argv = words line
            /\ Forall token argv
            /\ tokenize (String.concat " " argv) = Some (Argv argv).
Proof.
  split; [reflexivity|]. intros line.
  split; [apply TokenizerFacts.tokenize_words|].
  split; [apply WordsFacts.words_tokens|].
  split; [apply WordsFacts.words_join, WordsFacts.words_tokens|].
  split.
  - rewrite TokenizerFacts.tokenize_words. discriminate.
  - intros argv H. rewrite TokenizerFacts.tokenize_words in H.
    destruct (Nat.leb_spec (length (words line)) 15) as [Hn|Hn];
      [|discriminate].
    injection H as <-. split; [reflexivity|]. split.
    + apply WordsFacts.words_tokens.
    + rewrite TokenizerFacts.tokenize_words.
      rewrite WordsFacts.words_join by apply WordsFacts.words_tokens.
      apply Nat.leb_le in Hn. now rewrite Hn.
Qed.

Lemma tokenize_collapses_whitespace_witness :
  tokenize " help  me " = Some (Argv ["help"; "me"])
  /\ ["help"; "me"] = words " help  me "
  /\ Forall token ["help"; "me"]
  /\ tokenize (String.concat " " ["help"; "me"]) = Some (Argv ["help"; "me"]).
Proof.
  split; [reflexivity|].
  destruct (proj2 tokenize_collapses_whitespace " help  me ")
    as (_ & _ & _ & _ & H).
  apply H. reflexivity.
Defined.

(** C7. A line of more than 15 tokens makes [runcmd] report the overflow
    and return 0 whatever the table holds, so no handler runs; on a line
    of at most 15 tokens [runcmd] is the dispatch on the words of the
    line, and what it prints reports no overflow. *)
Theorem too_many_arguments (k : Kernel) (fuel : nat) (line : string) :
  ((15 < length (words line))%nat ->
   forall cmds : list Command,
     runcmd_with cmds k fuel line = Some (0, [too_many]))
  /\ ((length (words line) <= 15)%nat ->
      runcmd k fuel line = dispatch commands k fuel (words line)
      /\ forall r out, runcmd k fuel line = Some (r, out) -> quiet out = true).
Proof.
  unfold runcmd, runcmd_with. rewrite TokenizerFacts.tokenize_words.
  destruct (Nat.leb_spec (length (words line)) 15) as [H|H]; split;
    try lia; intros _.
  - split; [reflexivity|]. intros r out Hd.
    now apply HandlerFacts.dispatch_commands in Hd.
  - reflexivity.
Qed.

Lemma too_many_arguments_witness :
  runcmd_with halting idle 0 "a b c d e f g h i j k l m n o p"
  = Some (0, [too_many])
  /\ runcmd idle 0 "a b c d e f g h i j k l m n o"
     = dispatch commands idle 0 (words "a b c d e f g h i j k l m n o").
Proof.
  split.
  - apply (proj1 (too_many_arguments idle 0 "a b c d e f g h i j k l m n o p")).
    vm_compute. lia.
  - apply (proj2 (too_many_arguments idle 0 "a b c d e f g h i j k l m n o")).
    vm_compute. lia.
Defined.

(** ** The mapping inspector *)

(** C3, as the code has it. A cleanly parsed first address A gives
    begin = roundDown(A), exact on aligned addresses. With one address
    below the last page of the address space the table has exactly one
    row, for begin. With a cleanly parsed second address B whose rounding
    up stays below 2^32, end is roundUp(B), exact on aligned addresses,
    and the table has one row for each page from begin up to end:
    (end - begin) / 4096 rows when begin < end, none when end <= begin.
    Nothing is said of an address in the last page. *)
Theorem showmappings_range (k : Kernel) (fuel : nat) (argv : list string)
    (A : Z) (restA : string) :
  strtol k (arg argv 1) 16 = (A, restA) ->
  deref_string restA = NUL ->
  let begin := PGSIZE * (uint32 A / PGSIZE) in
  (aligned (uint32 A) -> begin = uint32 A)
  /\ (begin + PGSIZE < modulus -> (1 < fuel)%nat ->
      exists r,
        mon_showmappings k fuel 2 argv = Some (0, [table_header; r])
        /\ row_va r = begin)
  /\ (forall (B : Z) (restB : string),
        strtol k (arg argv 2) 16 = (B, restB) ->
        deref_string restB = NUL ->
        uint32 B + PGSIZE - 1 < modulus ->
        let end_ := PGSIZE * ((uint32 B + PGSIZE - 1) / PGSIZE) in
        (aligned (uint32 B) -> end_ = uint32 B)
        /\ (page_count begin end_ < Z.of_nat fuel ->
            exists rows,
              mon_showmappings k fuel 3 argv = Some (0, table_header :: rows)
              /\ length rows = Z.to_nat (page_count begin end_)
              /\ map row_va rows
                 = pages begin (Z.to_nat (page_count begin end_)))).
Proof.
  intros HA HrA begin.
  pose proof (RangeFacts.rounddown_aligned (uint32 A)) as Hb.
  assert (Hbegin : ROUNDDOWN (uint32 A) PGSIZE = begin).
  { unfold begin. now rewrite RangeFacts.rounddown_eq, uint32_idem. }
  rewrite Hbegin in Hb.
  split; [|split].
  - intros Ha. rewrite <- Hbegin. now apply RangeFacts.round_aligned.
  - intros Htop Hfuel.
    assert (Hend : uint32 (begin + PGSIZE) = begin + PGSIZE).
    { apply uint32_small. destruct Hb as [Hb _].
      unfold PGSIZE, modulus in *. lia. }
    assert (Hcount : page_count begin (begin + PGSIZE) = 1).
    { unfold page_count. destruct (Z.ltb_spec begin (begin + PGSIZE)).
      - replace (begin + PGSIZE - begin) with PGSIZE by lia. reflexivity.
      - unfold PGSIZE in *. lia. }
    destruct (RangeFacts.loop_rows k fuel begin (begin + PGSIZE) perm_template)
      as (rows & Hl & Hm); auto.
    { rewrite <- Hend. now apply RangeFacts.next_aligned. }
    { rewrite Hcount. lia. }
    rewrite Hcount in Hm. change (Z.to_nat 1) with 1%nat in Hm.
    destruct rows as [|r [|r' rows]]; try discriminate.
    exists r. split; [|now injection Hm].
    unfold mon_showmappings. simpl. rewrite HA, HrA. simpl.
    rewrite Hbegin, Hend, Hl. reflexivity.
  - intros B restB HB HrB Htop end_.
    pose proof (RangeFacts.roundup_aligned (uint32 B)) as He.
    assert (Hend : ROUNDUP (uint32 B) PGSIZE = end_).
    { unfold end_. rewrite RangeFacts.roundup_eq, uint32_idem.
      rewrite (uint32_small (uint32 B + PGSIZE - 1)); [reflexivity|].
      pose proof (uint32_range B). unfold PGSIZE in *. lia. }
    rewrite Hend in He.
    split.
    + intros Ha. rewrite <- Hend. now apply RangeFacts.round_aligned.
    + intros Hfuel.
      destruct (RangeFacts.loop_rows k fuel begin end_ perm_template)
        as (rows & Hl & Hm); auto.
      exists rows. split; [|split; [|exact Hm]].
      * unfold mon_showmappings. simpl. rewrite HA, HrA, HB, HrB. simpl.
        rewrite Hbegin, Hend, Hl. reflexivity.
      * assert (Hp : forall n b, length (pages b n) = n)
          by (induction n as [|n IH]; intros b; simpl;
              [reflexivity | now rewrite IH]).
        apply (f_equal (@length Z)) in Hm.
        now rewrite length_map, Hp in Hm.
Qed.

Lemma showmappings_range_witness :
  (exists r,
     mon_showmappings idle 2%nat 2 ["showmappings"; "1000"]
     = Some (0, [table_header; r]) /\ row_va r = 0x1000)
  /\ (exists rows,
        mon_showmappings idle 3%nat 3 ["showmappings"; "1000"; "3000"]
        = Some (0, table_header :: rows)
        /\ length rows = 2%nat
        /\ map row_va rows = [0x1000; 0x2000]).
Proof.
  pose proof (showmappings_range idle 2 ["showmappings"; "1000"] 0x1000 ""
                eq_refl eq_refl) as (_ & H1 & _).
  pose proof (showmappings_range idle 3 ["showmappings"; "1000"; "3000"]
                0x1000 "" eq_refl eq_refl) as (_ & _ & H2).
  split.
  - apply H1; [reflexivity | lia].
  - assert (Htop : uint32 0x3000 + PGSIZE - 1 < modulus) by reflexivity.
    destruct (H2 0x3000 "" eq_refl eq_refl Htop) as (_ & H3).
    apply H3. reflexivity.
Defined.

(** C3 as stated fails: the addresses 3000 and 1000 parse cleanly and
    make the range run from 0x3000 to 0x1000; the loop is guarded by
    begin < end and prints no row, where the 32-bit quotient
    (end - begin) / 4096 is 1048574. *)
Lemma showmappings_range_counterexample :
  strtol idle "3000" 16 = (0x3000, "")
  /\ strtol idle "1000" 16 = (0x1000, "")
  /\ ROUNDDOWN (uint32 0x3000) PGSIZE = 0x3000
  /\ ROUNDUP (uint32 0x1000) PGSIZE = 0x1000
  /\ mon_showmappings idle 2%nat 3 ["showmappings"; "3000"; "1000"]
     = Some (0, [table_header])
  /\ uint32 (0x1000 - 0x3000) / PGSIZE = 1048574.
Proof. repeat split; reflexivity. Qed.

(** C8. With one or two address arguments, as soon as the first, or else
    the second, leaves a character unparsed, the handler prints the
    wrong-address message and nothing else, and returns 0. *)
Theorem wrong_address_reported (k : Kernel) (fuel : nat) (argc : Z)
    (argv : list string) :
  argc = 2 \/ argc = 3 ->
  deref_string (snd (strtol k (arg argv 1) 16)) <> NUL
  \/ (argc = 3 /\ deref_string (snd (strtol k (arg argv 2) 16)) <> NUL) ->
  mon_showmappings k fuel argc argv = Some (0, [Cprintf "Wrong address!" []]).
Proof.
  assert (Hnz : forall c, c <> NUL -> nonzero c = true).
  { intros c Hc. unfold nonzero. apply negb_true_iff.
    now apply Ascii.eqb_neq. }
  intros Hargc Hbad. unfold mon_showmappings.
  replace ((argc =? 1) || (argc >? 3)) with false
    by (destruct Hargc; subst; reflexivity).
  replace (argc >? 1) with true by (destruct Hargc; subst; reflexivity).
  destruct (strtol k (arg argv 1) 16) as [v1 e1]. simpl in Hbad.
  destruct (nonzero (deref_string e1)) eqn:E1; [reflexivity|].
  destruct Hbad as [Hbad|[-> Hbad]].
  - apply Hnz in Hbad. congruence.
  - simpl. destruct (strtol k (arg argv 2) 16) as [v2 e2]. simpl in Hbad.
    now rewrite (Hnz _ Hbad).
Qed.

Lemma wrong_address_reported_witness :
  mon_showmappings idle 0%nat 2 ["showmappings"; "zz"]
  = Some (0, [Cprintf "Wrong address!" []])
  /\ mon_showmappings idle 0%nat 3 ["showmappings"; "1000"; "30g0"]
     = Some (0, [Cprintf "Wrong address!" []]).
Proof.
  split.
  - apply wrong_address_reported; [now left|].
    left. vm_compute. discriminate.
  - apply wrong_address_reported; [now right|].
    right. split; [reflexivity|]. vm_compute. discriminate.
Defined.

(** C2, at an input where the code departs from it. On the template as
    it is declared, an entry renders to the letters of its own flags, with
    X for a flag it lacks. But the page at 0x2000, which is present,
    writable and open to the user, is shown with P/U/W only when asked for
    alone; asked for after the page at 0x1000, which is closed to the
    user, it is shown with P/X/W: the X written for the earlier page stays
    in the array. *)
Theorem permission_string_stale :
  (forall (k : Kernel) (pte : Z),
     cstring (render k pte perm_template)
     = String (if Z.land (PTE_P k) pte =? 0 then "X" else "P")
         (String "/"
            (String (if Z.land (PTE_U k) pte =? 0 then "X" else "U")
               (String "/"
                  (String (if Z.land (PTE_W k) pte =? 0 then "X" else "W")
                     EmptyString)))))
  /\ mon_showmappings two_pages 2%nat 2 ["showmappings"; "2000"]
     = Some (0, [table_header; row 0x2000 0x6000 (list_ascii_of_string "P/U/W")])
  /\ mon_showmappings two_pages 3%nat 3 ["showmappings"; "1000"; "3000"]
     = Some (0, [table_header;
                 row 0x1000 0x5000 (list_ascii_of_string "P/X/W");
                 row 0x2000 0x6000 (list_ascii_of_string "P/X/W")]).
Proof.
  split; [|split; reflexivity].
  intros k pte. unfold render, mark. simpl.
  destruct (Z.land (PTE_P k) pte =? 0), (Z.land (PTE_U k) pte =? 0),
    (Z.land (PTE_W k) pte =? 0); reflexivity.
Qed.

(** ** The backtrace *)

(** C5, as the code has it. On a frame-pointer chain that ends in a null
    saved frame pointer the handler returns 0, after at most one iteration
    more than there are frames. It prints one block for each frame,
    innermost first: the line of the frame, which shows the frame pointer,
    the return address read one word above it and the five words above
    the return address; and after it a second line, with the symbol of
    the return address, exactly when its lookup succeeded. So there is
    one line for each frame when no lookup succeeds, and at most two. *)
Theorem backtrace_walks_chain (k : Kernel) (fuel : nat) (argc : Z)
    (argv : list string) (frames : list Z) :
  chain k (uint32 (read_ebp k)) frames ->
  (length frames < fuel)%nat ->
  let blocks := frame_blocks k frames zero_info in
  mon_backtrace k fuel argc argv = Some (0, concat blocks)
  /\ length blocks = length frames
  /\ frame_pointers (concat blocks) = frames
  /\ (length frames <= line_count (concat blocks) <= 2 * length frames)%nat
  /\ ((forall eip info, fst (debuginfo_eip k eip info) <> 0) ->
      line_count (concat blocks) = length frames).
Proof.
  intros Hch Hf blocks. split.
  - pose proof (BacktraceFacts.loop_blocks k _ _ Hch fuel zero_info Hf) as H.
    unfold mon_backtrace, backtrace.
    destruct (backtrace_loop k fuel (uint32 (read_ebp k)) zero_info)
      as [[out calls]|]; [|discriminate].
    simpl in H. now injection H as ->.
  - apply BacktraceFacts.blocks_lines.
Qed.

Lemma three_frames_chain :
  chain three_frames (uint32 (read_ebp three_frames)) [0x3000; 0x2000; 0x1000].
Proof.
  change (uint32 (read_ebp three_frames)) with 0x3000.
  apply chain_frame; [discriminate|].
  change (load three_frames 0x3000) with 0x2000.
  apply chain_frame; [discriminate|].
  change (load three_frames 0x2000) with 0x1000.
  apply chain_frame; [discriminate|].
  change (load three_frames 0x1000) with 0.
  apply chain_end.
Qed.

Lemma backtrace_walks_chain_witness :
  mon_backtrace three_frames 4%nat 1 ["backtrace"]
  = Some (0, concat (frame_blocks three_frames [0x3000; 0x2000; 0x1000]
                       zero_info))
  /\ frame_pointers
       (concat (frame_blocks three_frames [0x3000; 0x2000; 0x1000] zero_info))
     = [0x3000; 0x2000; 0x1000].
Proof.
  destruct (backtrace_walks_chain three_frames 4 1 ["backtrace"]
              [0x3000; 0x2000; 0x1000] three_frames_chain)
    as (H1 & _ & H2 & _).
  - simpl. lia.
  - split; [exact H1 | exact H2].
Defined.

(** C5 as stated fails: on three frames with a resolver that succeeds,
    six lines are printed, two for each frame; the second line of the
    innermost frame shows the symbol of its return address. *)
Lemma backtrace_walks_chain_counterexample :
  exists out,
    mon_backtrace three_frames 4%nat 1 ["backtrace"] = Some (0, out)
    /\ frame_pointers out = [0x3000; 0x2000; 0x1000]
    /\ line_count out = 6%nat
    /\ firstn 11 out
       = [ Cprintf "ebp %08x eip %08x args" [AInt 0x3000; AInt 0xF0100003];
           Cprintf " %08x" [AInt 0x3008];
           Cprintf " %08x" [AInt 0x300C];
           Cprintf " %08x" [AInt 0x3010];
           Cprintf " %08x" [AInt 0x3014];
           Cprintf " %08x" [AInt 0x3018];
           Cprintf nl [];
           Cprintf "%s:%d: " [AStr "kern/init.c"; AInt 3];
           Cprintf "%.*s" [AInt 1; AStr "f"];
           Cprintf "+%d" [AInt 3];
           Cprintf nl [] ].
Proof. eexists. repeat split; reflexivity. Qed.

(** C4, as the code has it. The record is zeroed once, before the loop:
    the first lookup is given the zeroed record, and every later lookup
    the record as the lookup before it left it. *)
Theorem lookups_threaded (k : Kernel) (fuel : nat) (out : Console)
    (calls : list Lookup) :
  backtrace k fuel = Some (out, calls) ->
  threaded k zero_info calls.
Proof. apply BacktraceFacts.loop_threaded. Qed.

Lemma lookups_threaded_witness :
  exists out calls,
    backtrace three_frames 4 = Some (out, calls)
    /\ threaded three_frames zero_info calls.
Proof.
  eexists. eexists. split; [reflexivity|].
  eapply (lookups_threaded three_frames 4). reflexivity.
Defined.

(** C4 as stated fails: on three frames with a resolver that succeeds,
    the second lookup is given the record the first one filled in. *)
Lemma lookups_zeroed_counterexample :
  exists out calls,
    backtrace three_frames 4 = Some (out, calls)
    /\ nth 1 (map snd calls) zero_info
       = snd (resolve_all 0xF0100003 zero_info)
    /\ ~ Forall (fun c : Lookup => snd c = zero_info) calls.
Proof.
  eexists. eexists. split; [reflexivity|]. split; [reflexivity|].
  intros H. inversion H as [|c1 l1 _ H2]. subst.
  inversion H2 as [|c2 l2 H3 _]. discriminate H3.
Qed.

(** ** The dispatcher and the monitor loop *)

(** C9, as the code has it. When the first token of a line is the name of
    no command, [runcmd] returns 0 and the loop goes on with the next
    line; what is reported is the unknown command when the line has at
    most 15 tokens, and the overflow of the argument vector otherwise. *)
Theorem unknown_command_continues (k : Kernel) (fuel : nat) (line : string)
    (arg0 : string) (rest : list string) (input : list (option string)) :
  words line = arg0 :: rest ->
  ~ In arg0 (map name commands) ->
  exists out,
    runcmd k fuel line = Some (0, out)
    /\ ((length (words line) <= 15)%nat -> out = [unknown_command arg0])
    /\ ((15 < length (words line))%nat -> out = [too_many])
    /\ monitor_loop commands k fuel (Some line :: input)
       = after out (monitor_loop commands k fuel input).
Proof.
  intros Hw Hno. apply HandlerFacts.lookup_none in Hno.
  cbn [monitor_loop]. unfold runcmd, runcmd_with.
  rewrite TokenizerFacts.tokenize_words.
  destruct (Nat.leb_spec (length (words line)) 15) as [H|H].
  - rewrite Hw. unfold dispatch. rewrite Hno.
    eexists. split; [reflexivity|]. rewrite <- Hw.
    split; [reflexivity|]. split; [lia | reflexivity].
  - eexists. split; [reflexivity|].
    split; [lia|]. split; reflexivity.
Qed.

Lemma unknown_command_continues_witness :
  exists out,
    runcmd idle 0 "frobnicate" = Some (0, out)
    /\ ((length (words "frobnicate") <= 15)%nat
        -> out = [unknown_command "frobnicate"])
    /\ ((15 < length (words "frobnicate"))%nat -> out = [too_many])
    /\ monitor_loop commands idle 0 [Some "frobnicate"; Some "help"]
       = after out (monitor_loop commands idle 0 [Some "help"]).
Proof.
  apply (unknown_command_continues idle 0 "frobnicate" "frobnicate" []).
  - reflexivity.
  - simpl. intros [H|[H|[H|[H|[]]]]]; discriminate H.
Defined.

(** C9 as stated fails: a line of sixteen tokens whose first token is no
    command is answered with the overflow of the argument vector, not with
    the unknown command. *)
Lemma unknown_command_counterexample :
  hd_error (words crowded) = Some "frobnicate"
  /\ lookup commands "frobnicate" = None
  /\ runcmd idle 0 crowded = Some (0, [too_many])
  /\ ~ In (unknown_command "frobnicate") [too_many].
Proof.
  repeat split; try reflexivity.
  intros [H|[]]. discriminate H.
Qed.

(** C1, as the code has it. When the first token of a line names a
    command and its handler returns, the loop is left exactly when the
    value returned is negative; on any other value it goes on with the
    next line. *)
Theorem negative_return_terminates (cmds : list Command) (k : Kernel)
    (fuel : nat) (line : string) (arg0 : string) (rest : list string)
    (c : Command) (r : Z) (out : Console) (input : list (option string)) :
  tokenize line = Some (Argv (arg0 :: rest)) ->
  lookup cmds arg0 = Some c ->
  func c k fuel (Z.of_nat (length (arg0 :: rest))) (arg0 :: rest)
  = Some (r, out) ->
  (r < 0 ->
   monitor_loop cmds k fuel (Some line :: input) = Some (Exited, out))
  /\ (0 <= r ->
      monitor_loop cmds k fuel (Some line :: input)
      = after out (monitor_loop cmds k fuel input)).
Proof.
  intros Ht Hl Hf. cbn [monitor_loop]. unfold runcmd_with.
  rewrite Ht. unfold dispatch. rewrite Hl, Hf.
  destruct (Z.ltb_spec r 0); split; intros; try lia; reflexivity.
Qed.

Lemma negative_return_terminates_witness :
  monitor_loop halting idle 0 [Some "halt now"; Some "halt"]
  = Some (Exited, [])
  /\ monitor_loop commands idle 0 [Some "help"]
     = after (map (fun c => Cprintf ("%s - %s" ++ nl)
                                    [AStr (fst c); AStr (snd c)])
                  command_text)
             (monitor_loop commands idle 0 []).
Proof.
  split.
  - apply (proj1 (negative_return_terminates halting idle 0 "halt now"
                    "halt" ["now"] _ (-2) [] [Some "halt"]
                    eq_refl eq_refl eq_refl)).
    lia.
  - apply (proj2 (negative_return_terminates commands idle 0 "help"
                    "help" [] _ 0 _ [] eq_refl eq_refl eq_refl)).
    lia.
Defined.

(** C1 as stated fails: a handler that returns -2, which is not -1, makes
    the monitor leave its loop, and the line after it is not read. *)
Lemma sentinel_counterexample :
  dispatch halting idle 0 ["halt"] = Some (-2, [])
  /\ -2 <> -1
  /\ monitor_with halting idle 0 [Some "halt"; Some "frobnicate"]
     = Some (Exited, welcome).
Proof. repeat split; try reflexivity. discriminate. Qed.

(** C10, as the code has it. [mon_help] and [mon_kerninfo] return 0 on
    every invocation, and so does [mon_showmappings], within 2^20
    iterations of its loop; [mon_backtrace] returns nothing but 0. Hence
    [runcmd] returns nothing but 0, and the monitor never leaves its
    loop. *)
Theorem handlers_return_zero (k : Kernel) (fuel : nat) (argc : Z)
    (argv : list string) (line : string) (input : list (option string)) :
  (exists out, mon_help k fuel argc argv = Some (0, out))
  /\ (exists out, mon_kerninfo k fuel argc argv = Some (0, out))
  /\ (2 ^ 20 <= Z.of_nat fuel ->
      exists out, mon_showmappings k fuel argc argv = Some (0, out))
  /\ (forall r out, mon_backtrace k fuel argc argv = Some (r, out) -> r = 0)
  /\ (forall r out, runcmd k fuel line = Some (r, out) -> r = 0)
  /\ (forall st out, monitor k fuel input = Some (st, out) -> st = Reading).
Proof.
  split; [eexists; reflexivity|]. split; [eexists; reflexivity|].
  split; [|split; [|split]].
  - apply RangeFacts.showmappings_returns.
  - intros r out H. now apply HandlerFacts.mon_backtrace_zero in H.
  - apply HandlerFacts.runcmd_zero.
  - unfold monitor, monitor_with. induction input as [|[buf|] input IH].
    + intros st out H. now injection H as <- _.
    + cbn [monitor_loop]. fold (runcmd k fuel buf).
      destruct (runcmd k fuel buf) as [[r o]|] eqn:E;
        [|intros st out H; discriminate H].
      apply HandlerFacts.runcmd_zero in E. subst r. simpl.
      intros st out H.
      destruct (monitor_loop commands k fuel input) as [[st' o']|] eqn:E';
        [|discriminate H].
      injection H as <- _. now apply (IH st' (welcome ++ o')).
    + exact IH.
Qed.

Lemma handlers_return_zero_witness :
  (exists out,
     mon_showmappings two_pages (Z.to_nat (2 ^ 20)) 3
       ["showmappings"; "1000"; "3000"] = Some (0, out))
  /\ (forall r out,
        mon_backtrace three_frames 4%nat 1 ["backtrace"] = Some (r, out) ->
        r = 0)
  /\ (forall r out, runcmd idle 1 "kerninfo" = Some (r, out) -> r = 0)
  /\ (forall st out,
        monitor idle 1 [Some "help"; None; Some "bye"] = Some (st, out) ->
        st = Reading).
Proof.
  split.
  - apply (handlers_return_zero two_pages (Z.to_nat (2 ^ 20)) 3
             ["showmappings"; "1000"; "3000"] "" []).
    rewrite Z2Nat.id; lia.
  - split; [|split].
    + apply (handlers_return_zero three_frames 4 1 ["backtrace"] "" []).
    + apply (handlers_return_zero idle 1 0 [] "kerninfo" []).
    + apply (handlers_return_zero idle 1 0 []
               "" [Some "help"; None; Some "bye"]).
Defined.

(** C10 as stated fails: on a frame that is its own caller
    [mon_backtrace] returns no value at all, however long it runs. *)
Lemma handlers_return_zero_counterexample :
  load looping (uint32 (read_ebp looping)) = uint32 (read_ebp looping)
  /\ ~ exists fuel : nat,
         mon_backtrace looping fuel 1 ["backtrace"] <> None.
Proof.
  split; [reflexivity|]. intros [fuel H]. apply H.
  unfold mon_backtrace, backtrace.
  change (uint32 (read_ebp looping)) with 0x1000.
  now rewrite BacktraceFacts.loop_looping.
Qed.

(** ** Further facts about the tokenizer *)

Module BufferFacts.

Import TokenizerFacts.

Lemma blanked_refl (l : list ascii) : blanked l l.
Proof. induction l; constructor; auto. Qed.

Lemma blanked_app (a a' b b' : list ascii) :
  blanked a a' -> blanked b b' -> blanked (a ++ b) (a' ++ b').
Proof. apply Forall2_app. Qed.

Lemma blanked_length (a b : list ascii) : blanked a b -> length a = length b.
Proof. apply Forall2_length. Qed.

(** The first inner loop overwrites whitespace, and only that. *)
Lemma gobble_blanks (ahead passed : list ascii) :
  exists ws zs rest,
    gobble passed ahead = (zs ++ passed, rest)
    /\ ahead = ws ++ rest
    /\ blanked ws (rev zs)
    /\ nonzero (deref rest) && strchr WHITESPACE (deref rest) = false.
Proof.
  revert passed. induction ahead as [|c ahead IH]; intros passed.
  - exists [], [], []. repeat split; constructor.
  - simpl gobble. destruct (nonzero c && strchr WHITESPACE c) eqn:E.
    + destruct (IH (NUL :: passed)) as (ws & zs & rest & Hg & Ha & Hb & Hd).
      exists (c :: ws), (zs ++ [NUL]), rest. rewrite Hg. repeat split.
      * now rewrite <- app_assoc.
      * now rewrite Ha.
      * rewrite rev_app_distr. simpl. constructor; [|exact Hb].
        right. apply andb_prop in E. tauto.
      * exact Hd.
    + exists [], [], (c :: ahead). repeat split; auto. constructor.
Qed.

(** The outer loop: the buffer it leaves, and the pointers it saves. *)
Lemma parse_blanks (fuel : nat) :
  forall (passed ahead : list ascii) (argv : list nat) buf' argv',
    parse fuel passed ahead argv = Some (Args buf' argv') ->
    exists B offs,
      buf' = rev passed ++ B
      /\ blanked ahead B
      /\ argv' = argv ++ offs
      /\ Forall (fun o => (length passed <= o < length passed + length ahead)%nat)
                offs
      /\ StronglySorted lt offs.
Proof.
  induction fuel as [|fuel IH]; intros passed ahead argv buf' argv' H;
    [discriminate|].
  cbn [parse] in H.
  destruct (gobble_blanks ahead passed) as (ws & zs & rest & Hg & Ha & Hb & Hd).
  rewrite Hg in H.
  pose proof (blanked_length _ _ Hb) as Hlen. rewrite length_rev in Hlen.
  destruct (Ascii.eqb (deref rest) NUL) eqn:E.
  - injection H as <- <-. exists (rev zs ++ rest), []. repeat split.
    + now rewrite rev_app_distr, app_assoc.
    + rewrite Ha. apply blanked_app; [exact Hb | apply blanked_refl].
    + now rewrite app_nil_r.
    + constructor.
    + constructor.
  - destruct (Nat.eqb (length argv) (MAXARGS - 1)); [discriminate|].
    destruct (token_found (zs ++ passed) rest E Hd)
      as (t & rest2 & Hsc & Hr & Hne & _ & _ & _).
    rewrite Hsc in H.
    apply IH in H. destruct H as (B' & offs' & Hbuf & Hbl & Hargv & Hin & Hso).
    assert (Ht : (0 < length t)%nat)
      by (destruct t; [congruence | simpl; lia]).
    exists (rev zs ++ t ++ B'), (length (zs ++ passed) :: offs').
    repeat split.
    + rewrite Hbuf, !rev_app_distr, rev_involutive.
      now rewrite <- !app_assoc.
    + rewrite Ha, Hr. apply blanked_app; [exact Hb|].
      apply blanked_app; [apply blanked_refl | exact Hbl].
    + now rewrite Hargv, <- app_assoc.
    + rewrite Ha, Hr. constructor.
      * rewrite !length_app. lia.
      * eapply Forall_impl; [|exact Hin]. simpl. intros o Ho.
        rewrite !length_app, length_rev in Ho. rewrite !length_app. lia.
    + constructor; [exact Hso|].
      eapply Forall_impl; [|exact Hin]. simpl. intros o Ho.
      rewrite !length_app, length_rev in Ho. rewrite length_app. lia.
Qed.

(** The words of a line hold its bytes other than whitespace, up to the
    terminator. *)
Lemma split_ws_bytes (l : list ascii) :
  forall cur,
    concat (map list_ascii_of_string (split_ws cur l))
    = rev cur ++ filter (fun c => negb (strchr WHITESPACE c)) (cprefix l).
Proof.
  assert (Hflush : forall cur,
    concat (map list_ascii_of_string (flush cur)) = rev cur).
  { intros [|c cur]; [reflexivity|].
    unfold flush. cbn [map concat].
    now rewrite list_ascii_of_string_of_list_ascii, app_nil_r. }
  unfold cprefix.
  induction l as [|c l IH]; intros cur; simpl.
  - now rewrite Hflush, app_nil_r.
  - unfold nonzero. destruct (Ascii.eqb c NUL) eqn:E1; simpl.
    + now rewrite Hflush, app_nil_r.
    + destruct (strchr WHITESPACE c) eqn:E2; simpl.
      * now rewrite map_app, concat_app, Hflush, IH.
      * rewrite IH. simpl. now rewrite <- app_assoc.
Qed.

Lemma split_ws_blank (l : list ascii) :
  Forall (fun c => strchr WHITESPACE c = true) l -> split_ws [] l = [].
Proof.
  induction 1 as [|c l Hc Hl IH]; simpl; [reflexivity|].
  rewrite Hc. destruct (Ascii.eqb c NUL); [reflexivity | exact IH].
Qed.

End BufferFacts.

(** ** Further properties of the tokenizer and the dispatcher *)

(** X1. The argument vector never holds more than 15 tokens, so that with
    its closing null pointer it fits the 16 entries of [argv]. *)
Theorem argv_within_capacity (line : string) (argv : list string) :
  tokenize line = Some (Argv argv) ->
  (length argv < MAXARGS)%nat.
Proof.
  rewrite TokenizerFacts.tokenize_words.
  destruct (Nat.leb_spec (length (words line)) 15) as [H|H]; [|discriminate].
  intros E. injection E as <-. unfold MAXARGS. lia.
Qed.

Lemma argv_within_capacity_witness :
  (length ["showmappings"; "1000"] < MAXARGS)%nat.
Proof.
  apply (argv_within_capacity "showmappings 1000"). reflexivity.
Defined.

(** X2. Tokenizing a buffer changes it in place only by overwriting
    whitespace bytes with the terminator: its length and every other byte
    stay. The pointers saved in [argv] lie inside the buffer and are
    strictly increasing. *)
Theorem tokenizer_overwrites_whitespace_only (fuel : nat)
    (buf buf' : list ascii) (argv : list nat) :
  parse fuel [] buf [] = Some (Args buf' argv) ->
  blanked buf buf'
  /\ length buf' = length buf
  /\ Forall (fun o => (o < length buf)%nat) argv
  /\ StronglySorted lt argv.
Proof.
  intros H. apply BufferFacts.parse_blanks in H.
  destruct H as (B & offs & -> & Hb & -> & Hin & Hso). simpl.
  repeat split; auto.
  - symmetry. now apply BufferFacts.blanked_length.
  - eapply Forall_impl; [|exact Hin]. simpl. intros o Ho. lia.
Qed.

Lemma tokenizer_overwrites_whitespace_only_witness :
  blanked (list_ascii_of_string " ab  c " ++ [NUL])
          [NUL; "a"; "b"; NUL; NUL; "c"; NUL; NUL]%char
  /\ length [NUL; "a"; "b"; NUL; NUL; "c"; NUL; NUL]%char
     = length (list_ascii_of_string " ab  c " ++ [NUL])
  /\ Forall (fun o => (o < length (list_ascii_of_string " ab  c " ++ [NUL]))%nat)
            [1; 5]%nat
  /\ StronglySorted lt [1; 5]%nat.
Proof.
  apply (tokenizer_overwrites_whitespace_only 9). reflexivity.
Defined.

(** X3. The tokens, put end to end, are the bytes of the line up to its
    terminator with the whitespace left out: no other byte is lost, added
    or moved. *)
Theorem tokens_keep_bytes (line : string) (argv : list string) :
  tokenize line = Some (Argv argv) ->
  concat (map list_ascii_of_string argv)
  = filter (fun c => negb (strchr WHITESPACE c))
           (cprefix (list_ascii_of_string line)).
Proof.
  rewrite TokenizerFacts.tokenize_words.
  destruct (Nat.leb_spec (length (words line)) 15) as [H|H]; [|discriminate].
  intros E. injection E as <-. unfold words.
  now rewrite BufferFacts.split_ws_bytes.
Qed.

Lemma tokens_keep_bytes_witness :
  concat (map list_ascii_of_string ["show"; "10"; "2f"])
  = filter (fun c => negb (strchr WHITESPACE c))
           (cprefix (list_ascii_of_string "  show 10   2f ")).
Proof.
  apply (tokens_keep_bytes "  show 10   2f "). reflexivity.
Defined.

(** X4. What [runcmd] does with a line depends on the words of the line
    only: two lines that differ in their whitespace alone get the same
    return value and the same output. *)
Theorem runcmd_by_words (cmds : list Command) (k : Kernel) (fuel : nat)
    (line1 line2 : string) :
  words line1 = words line2 ->
  runcmd_with cmds k fuel line1 = runcmd_with cmds k fuel line2.
Proof.
  intros H. unfold runcmd_with.
  now rewrite !TokenizerFacts.tokenize_words, H.
Qed.

Lemma runcmd_by_words_witness :
  runcmd_with commands two_pages 3 "showmappings 1000 3000"
  = runcmd_with commands two_pages 3 ("  showmappings" ++ tab ++ "1000   3000" ++ nl).
Proof.
  apply runcmd_by_words. reflexivity.
Defined.

(** X5. On a line that holds nothing but whitespace [runcmd] returns 0,
    prints nothing and runs no handler, whatever the table; the monitor
    goes on as if the line had not been read. *)
Theorem blank_line_ignored (cmds : list Command) (k : Kernel) (fuel : nat)
    (line : string) (input : list (option string)) :
  Forall (fun c => strchr WHITESPACE c = true) (list_ascii_of_string line) ->
  runcmd_with cmds k fuel line = Some (0, [])
  /\ monitor_loop cmds k fuel (Some line :: input)
     = monitor_loop cmds k fuel input.
Proof.
  intros H. cbn [monitor_loop]. unfold runcmd_with.
  rewrite TokenizerFacts.tokenize_words. unfold words.
  rewrite BufferFacts.split_ws_blank by exact H. simpl.
  split; [reflexivity|].
  now destruct (monitor_loop cmds k fuel input) as [[st out]|].
Qed.

Lemma blank_line_ignored_witness :
  runcmd_with halting looping 0 ("  " ++ tab ++ " ") = Some (0, [])
  /\ monitor_loop halting looping 0 [Some ("  " ++ tab ++ " ")%string; Some "halt"]
     = monitor_loop halting looping 0 [Some "halt"].
Proof.
  apply blank_line_ignored. repeat constructor.
Defined.

(** X6. The table is searched from its first entry on, and the first entry
    whose name is the first token is the one invoked: its handler gets the
    number of tokens as [argc] and all the tokens, the name included, as
    [argv], and what it returns is what the dispatch returns. *)
Theorem dispatch_first_match (pre post : list Command) (c : Command)
    (k : Kernel) (fuel : nat) (rest : list string) :
  ~ In (name c) (map name pre) ->
  dispatch (pre ++ c :: post) k fuel (name c :: rest)
  = func c k fuel (Z.of_nat (S (length rest))) (name c :: rest).
Proof.
  intros Hpre. unfold dispatch.
  assert (Hl : lookup (pre ++ c :: post) (name c) = Some c).
  { induction pre as [|p pre IH]; simpl.
    - now rewrite String.eqb_refl.
    - simpl in Hpre. destruct (String.eqb_spec (name c) (name p)) as [E|_].
      + exfalso. apply Hpre. left. now symmetry.
      + apply IH. tauto. }
  now rewrite Hl.
Qed.

Lemma dispatch_first_match_witness :
  dispatch commands two_pages 2 ["showmappings"; "2000"]
  = mon_showmappings two_pages 2%nat 2 ["showmappings"; "2000"].
Proof.
  apply (dispatch_first_match
           (firstn 3 commands) []
           {| name := "showmappings";
              desc := "Display mappings between physical address and virtual address";
              func := mon_showmappings |}
           two_pages 2 ["2000"]).
  simpl. intros [H|[H|[H|[]]]]; discriminate H.
Defined.

(** ** Further properties of the monitor loop *)

Module LoopFacts.

Lemma after_nil (run : option (Status * Console)) : after [] run = run.
Proof. now destruct run as [[st out]|]. Qed.

Lemma after_after (a b : Console) (run : option (Status * Console)) :
  after a (after b run) = after (a ++ b) run.
Proof. destruct run as [[st out]|]; simpl; [|reflexivity]. now rewrite app_assoc. Qed.

Lemma loop_lines (cmds : list Command) (k : Kernel) (fuel : nat)
    (input : list (option string)) :
  monitor_loop cmds k fuel input
  = monitor_loop cmds k fuel (map Some (lines input)).
Proof.
  induction input as [|[buf|] input IH]; cbn [lines flat_map map app].
  - reflexivity.
  - cbn [monitor_loop]. fold (lines input). now rewrite IH.
  - exact IH.
Qed.

End LoopFacts.

(** X7. A null result of [readline] changes nothing: the monitor does
    with its input what it does with the lines read alone. *)
Theorem null_reads_skipped (cmds : list Command) (k : Kernel) (fuel : nat)
    (input : list (option string)) :
  monitor_with cmds k fuel input
  = monitor_with cmds k fuel (map Some (lines input)).
Proof.
  unfold monitor_with. f_equal. apply LoopFacts.loop_lines.
Qed.

(** X8. The loop over an input in two parts: when the first part leaves
    the loop, or a handler in it does not return, the second part is never
    read; otherwise the second part is run after it, and its output
    follows that of the first. *)
Theorem monitor_loop_app (cmds : list Command) (k : Kernel) (fuel : nat)
    (input1 input2 : list (option string)) :
  monitor_loop cmds k fuel (input1 ++ input2)
  = match monitor_loop cmds k fuel input1 with
    | Some (Reading, out) => after out (monitor_loop cmds k fuel input2)
    | Some (Exited, out) => Some (Exited, out)
    | None => None
    end.
Proof.
  induction input1 as [|[buf|] input1 IH]; cbn [app monitor_loop].
  - now rewrite LoopFacts.after_nil.
  - destruct (runcmd_with cmds k fuel buf) as [[r out]|]; [|reflexivity].
    destruct (r <? 0); [reflexivity|]. rewrite IH.
    destruct (monitor_loop cmds k fuel input1) as [[[|] out1]|]; simpl.
    + reflexivity.
    + apply LoopFacts.after_after.
    + reflexivity.
  - exact IH.
Qed.

(** X9. When the command of every line read returns a value that is not
    negative, the monitor prints its two lines of welcome and then the
    outputs of the commands in the order of the lines, and is back reading
    when the input is used up. *)
Theorem monitor_output_in_order (cmds : list Command) (k : Kernel)
    (fuel : nat) (input : list (option string)) (outs : list Console) :
  Forall2 (fun line out =>
             exists r, runcmd_with cmds k fuel line = Some (r, out) /\ 0 <= r)
          (lines input) outs ->
  monitor_with cmds k fuel input = Some (Reading, welcome ++ concat outs).
Proof.
  unfold monitor_with. rewrite LoopFacts.loop_lines.
  generalize (lines input). intros ls H.
  assert (Hl : monitor_loop cmds k fuel (map Some ls)
               = Some (Reading, concat outs)).
  { induction H as [|line out ls outs (r & Hr & Hpos) _ IH];
      cbn [map monitor_loop concat]; [reflexivity|].
    rewrite Hr. destruct (Z.ltb_spec r 0); [lia|]. now rewrite IH. }
  now rewrite Hl.
Qed.

Lemma monitor_output_in_order_witness :
  monitor_with commands idle 0
    [Some "frobnicate"; None; Some "showmappings"]
  = Some (Reading,
          welcome ++ concat [[unknown_command "frobnicate"]; [usage]]).
Proof.
  apply monitor_output_in_order.
  repeat constructor; exists 0; split; (reflexivity || lia).
Defined.

(** ** Further properties of the mapping inspector *)

Module TableFacts.

Import RangeFacts.

(** Rendering one more entry into the array. *)
Lemma render_perm_of (k : Kernel) (pte : Z) (seen : list Z) :
  render k pte (perm_of k seen) = perm_of k (pte :: seen).
Proof.
  unfold render, mark, perm_of, lacks. simpl.
  destruct (Z.land (PTE_P k) pte =? 0), (Z.land (PTE_U k) pte =? 0),
    (Z.land (PTE_W k) pte =? 0),
    (existsb (fun p => Z.land (PTE_P k) p =? 0) seen),
    (existsb (fun p => Z.land (PTE_U k) p =? 0) seen),
    (existsb (fun p => Z.land (PTE_W k) p =? 0) seen); reflexivity.
Qed.

(** The loop over an aligned range prints the rows of [table_rows]. *)
Lemma loop_table (k : Kernel) (fuel : nat) :
  forall (b e : Z) (seen : list Z),
    aligned b -> aligned e ->
    page_count b e < Z.of_nat fuel ->
    showmappings_loop k fuel b e (perm_of k seen)
    = Some (table_rows k b (Z.to_nat (page_count b e)) seen).
Proof.
  induction fuel as [|fuel IH]; intros b e seen Hb He Hf.
  - pose proof (page_count_bound b e Hb He). lia.
  - cbn [showmappings_loop]. unfold page_count in *.
    destruct (Z.ltb_spec b e) as [Hlt|Hge]; [|reflexivity].
    assert (Hstep : uint32 (b + PGSIZE) = b + PGSIZE).
    { destruct Hb as [Hb1 Hb2], He as [He1 He2].
      unfold uint32, modulus, PGSIZE in *.
      assert (b + 4096 <= e) by (Z.div_mod_to_equations; lia).
      apply Z.mod_small; lia. }
    assert (Hcount : (e - b) / PGSIZE
                     = 1 + (if b + PGSIZE <? e
                            then (e - (b + PGSIZE)) / PGSIZE else 0)).
    { destruct Hb as [Hb1 Hb2], He as [He1 He2]. unfold PGSIZE in *.
      destruct (Z.ltb_spec (b + 4096) e); Z.div_mod_to_equations; lia. }
    pose proof (page_count_bound _ _ (next_aligned b Hb) He) as Hbd.
    unfold page_count in Hbd. rewrite Hstep in *.
    assert (Hrest : forall seen',
      showmappings_loop k fuel (b + PGSIZE) e (perm_of k seen')
      = Some (table_rows k (b + PGSIZE)
                (Z.to_nat (if b + PGSIZE <? e
                           then (e - (b + PGSIZE)) / PGSIZE else 0)) seen')).
    { intros seen'. apply IH; auto.
      - rewrite <- Hstep. now apply next_aligned.
      - lia. }
    rewrite Hcount, Z2Nat.inj_add by lia.
    change (Z.to_nat 1) with 1%nat. cbn [Nat.add table_rows].
    destruct (page_lookup k b) as [[pp pte]|].
    + now rewrite render_perm_of, Hrest.
    + now rewrite Hrest.
Qed.

Lemma table_rows_va (k : Kernel) (n : nat) :
  forall b seen, map row_va (table_rows k b n seen) = pages b n.
Proof.
  induction n as [|n IH]; intros b seen; [reflexivity|].
  cbn [table_rows pages]. destruct (page_lookup k b) as [[pp pte]|];
    cbn [map]; now rewrite IH.
Qed.

Lemma pages_in (n : nat) :
  forall b i, (i < n)%nat -> In (b + PGSIZE * Z.of_nat i) (pages b n).
Proof.
  induction n as [|n IH]; intros b i Hi; [lia|].
  cbn [pages]. destruct i as [|i].
  - left. simpl. lia.
  - right. replace (b + PGSIZE * Z.of_nat (S i))
      with ((b + PGSIZE) + PGSIZE * Z.of_nat i) by lia.
    apply IH. lia.
Qed.

(** What the handler does with two cleanly parsed addresses. *)
Lemma two_addresses (k : Kernel) (fuel : nat) (argv : list string)
    (A B : Z) (restA restB : string) :
  strtol k (arg argv 1) 16 = (A, restA) ->
  deref_string restA = NUL ->
  strtol k (arg argv 2) 16 = (B, restB) ->
  deref_string restB = NUL ->
  mon_showmappings k fuel 3 argv
  = option_map (fun rows => (0, table_header :: rows))
      (showmappings_loop k fuel (ROUNDDOWN (uint32 A) PGSIZE)
         (ROUNDUP (uint32 B) PGSIZE) perm_template).
Proof.
  intros HA HrA HB HrB. unfold mon_showmappings. simpl.
  rewrite HA, HB, HrA, HrB. reflexivity.
Qed.

End TableFacts.

(** X10. Called with [argc] 1 or above 3, that is without an address or
    with more than two further arguments, [mon_showmappings] prints its
    usage message and returns 0 without parsing an argument or looking up
    a page. The command line that names it gives just that when it has no
    further token or from 3 to 14 of them; with 15 or more it is turned
    down for its number of arguments and the handler is not run. *)
Theorem showmappings_usage (k : Kernel) (fuel : nat) :
  (forall (argc : Z) (argv : list string),
     argc = 1 \/ 3 < argc ->
     mon_showmappings k fuel argc argv = Some (0, [usage]))
  /\ (forall (line : string) (rest : list string),
        words line = "showmappings" :: rest ->
        ((length rest = 0 \/ 3 <= length rest <= 14)%nat ->
         runcmd k fuel line = Some (0, [usage]))
        /\ ((15 <= length rest)%nat ->
            runcmd k fuel line = Some (0, [too_many]))).
Proof.
  assert (Hm : forall argc argv,
            argc = 1 \/ 3 < argc ->
            mon_showmappings k fuel argc argv = Some (0, [usage])).
  { intros argc argv Hn. unfold mon_showmappings.
    replace ((argc =? 1) || (argc >? 3)) with true; [reflexivity|].
    symmetry. apply orb_true_iff. destruct Hn as [Hn|Hn].
    - left. now apply Z.eqb_eq.
    - right. apply Z.gtb_lt. lia. }
  split; [exact Hm|]. intros line rest Hw.
  unfold runcmd, runcmd_with. rewrite TokenizerFacts.tokenize_words, Hw.
  split; intros Hn.
  - replace (length ("showmappings" :: rest) <=? 15)%nat with true
      by (symmetry; apply Nat.leb_le; simpl; lia).
    apply Hm. simpl length. lia.
  - replace (length ("showmappings" :: rest) <=? 15)%nat with false
      by (symmetry; apply Nat.leb_gt; simpl; lia).
    reflexivity.
Qed.

Lemma showmappings_usage_witness :
  mon_showmappings looping 0%nat 4 ["showmappings"; "1"; "2"; "3"]
  = Some (0, [usage])
  /\ runcmd looping 0 "showmappings 1 2 3" = Some (0, [usage])
  /\ runcmd looping 0 "showmappings 1 2 3 4 5 6 7 8 9 10 11 12 13 14 15"
     = Some (0, [too_many]).
Proof.
  destruct (showmappings_usage looping 0) as (H1 & H2).
  split; [apply H1; right; lia|]. split.
  - assert (Hw : words "showmappings 1 2 3"
                 = "showmappings" :: ["1"; "2"; "3"])
      by (vm_compute; reflexivity).
    apply (proj1 (H2 _ _ Hw)). right. simpl. lia.
  - assert (Hw : words "showmappings 1 2 3 4 5 6 7 8 9 10 11 12 13 14 15"
                 = "showmappings"
                   :: ["1"; "2"; "3"; "4"; "5"; "6"; "7"; "8"; "9"; "10";
                       "11"; "12"; "13"; "14"; "15"])
      by (vm_compute; reflexivity).
    apply (proj2 (H2 _ _ Hw)). simpl. lia.
Defined.



(** X12. With two cleanly parsed addresses A and B, B not in the last
    page of the address space, the table has a row for the page of every
    address from A up to, and not including, B. *)
Theorem showmappings_covers (k : Kernel) (fuel : nat) (argv : list string)
    (A B : Z) (restA restB : string) (x : Z) :
  strtol k (arg argv 1) 16 = (A, restA) ->
  deref_string restA = NUL ->
  strtol k (arg argv 2) 16 = (B, restB) ->
  deref_string restB = NUL ->
  uint32 A <= x < uint32 B ->
  uint32 B <= modulus - PGSIZE ->
  2 ^ 20 <= Z.of_nat fuel ->
  exists rows,
    mon_showmappings k fuel 3 argv = Some (0, table_header :: rows)
    /\ In (PGSIZE * (x / PGSIZE)) (map row_va rows).
Proof.
  intros HA HrA HB HrB Hx Htop Hf.
  rewrite (TableFacts.two_addresses k fuel argv A B restA restB) by assumption.
  pose proof (RangeFacts.rounddown_aligned (uint32 A)) as Hb.
  pose proof (RangeFacts.roundup_aligned (uint32 B)) as He.
  pose proof (RangeFacts.page_count_bound _ _ Hb He) as Hbd.
  change perm_template with (perm_of k []).
  rewrite TableFacts.loop_table by (auto; lia).
  eexists. split; [reflexivity|].
  rewrite TableFacts.table_rows_va.
  rewrite RangeFacts.rounddown_eq, RangeFacts.roundup_eq, !uint32_idem in *.
  pose proof (uint32_range A) as Ha.
  set (a := uint32 A) in *. set (b := uint32 B) in *. clearbody a b.
  assert (Hup : uint32 (b + PGSIZE - 1) = b + PGSIZE - 1).
  { apply uint32_small. unfold modulus, PGSIZE in *. lia. }
  rewrite Hup in *.
  set (n := Z.to_nat (page_count (PGSIZE * (a / PGSIZE))
                                 (PGSIZE * ((b + PGSIZE - 1) / PGSIZE)))).
  replace (PGSIZE * (x / PGSIZE))
    with (PGSIZE * (a / PGSIZE)
          + PGSIZE * Z.of_nat (Z.to_nat (x / PGSIZE - a / PGSIZE))).
  - apply TableFacts.pages_in. subst n. unfold page_count, PGSIZE in *.
    destruct (Z.ltb_spec (4096 * (a / 4096))
                         (4096 * ((b + 4096 - 1) / 4096)));
      Z.div_mod_to_equations; lia.
  - unfold PGSIZE in *. rewrite Z2Nat.id; Z.div_mod_to_equations; lia.
Qed.

Lemma showmappings_covers_witness :
  exists rows,
    mon_showmappings two_pages (Z.to_nat (2 ^ 20)) 3
      ["showmappings"; "1234"; "2345"] = Some (0, table_header :: rows)
    /\ In (PGSIZE * (0x2001 / PGSIZE)) (map row_va rows).
Proof.
  apply (showmappings_covers two_pages (Z.to_nat (2 ^ 20))
           ["showmappings"; "1234"; "2345"] 0x1234 0x2345 "" "" 0x2001
           eq_refl eq_refl eq_refl eq_refl).
  - change (0x1234 <= 0x2001 < 0x2345). lia.
  - change (0x2345 <= 2 ^ 32 - 4096). lia.
  - rewrite Z2Nat.id; lia.
Defined.

(** X13. With one cleanly parsed address A, not in the last page of the
    address space, the table has the single row of the page of A: the row
    with NULL twice when the page is not mapped, and otherwise its physical
    address and the permission string of its own entry, with X for each
    flag the entry lacks. *)
Theorem showmappings_one_page (k : Kernel) (fuel : nat) (argv : list string)
    (A : Z) (restA : string) :
  strtol k (arg argv 1) 16 = (A, restA) ->
  deref_string restA = NUL ->
  uint32 A < modulus - PGSIZE ->
  (1 < fuel)%nat ->
  let begin := PGSIZE * (uint32 A / PGSIZE) in
  mon_showmappings k fuel 2 argv
  = Some (0, [ table_header;
               match page_lookup k begin with
               | Some (pp, pte) => row begin (page2pa k pp) (perm_of k [pte])
               | None => row_null begin
               end ]).
Proof.
  intros HA HrA Htop Hf begin.
  pose proof (RangeFacts.rounddown_aligned (uint32 A)) as Hb.
  pose proof (RangeFacts.rounddown_eq (uint32 A)) as Hr.
  rewrite uint32_idem in Hr. fold begin in Hr. rewrite Hr in Hb.
  assert (Hnext : uint32 (begin + PGSIZE) = begin + PGSIZE).
  { apply uint32_small. pose proof (uint32_range A) as Ha.
    unfold begin, modulus, PGSIZE in *. Z.div_mod_to_equations. lia. }
  assert (Hcount : page_count begin (begin + PGSIZE) = 1).
  { unfold page_count. destruct (Z.ltb_spec begin (begin + PGSIZE)).
    - replace (begin + PGSIZE - begin) with PGSIZE by lia. reflexivity.
    - unfold PGSIZE in *. lia. }
  unfold mon_showmappings. simpl. rewrite HA, HrA. simpl.
  rewrite Hr, Hnext. change perm_template with (perm_of k []).
  rewrite TableFacts.loop_table; auto.
  - rewrite Hcount. change (Z.to_nat 1) with 1%nat. cbn [table_rows].
    now destruct (page_lookup k begin) as [[pp pte]|].
  - rewrite <- Hnext. now apply RangeFacts.next_aligned.
  - rewrite Hcount. lia.
Qed.

Lemma showmappings_one_page_witness :
  mon_showmappings two_pages 2%nat 2 ["showmappings"; "2abc"]
  = Some (0, [ table_header;
               row 0x2000 0x6000 (list_ascii_of_string "P/U/W") ]).
Proof.
  apply (showmappings_one_page two_pages 2 ["showmappings"; "2abc"]
           0x2abc "" eq_refl eq_refl).
  - change (0x2abc < 2 ^ 32 - 4096). lia.
  - lia.
Defined.

(** ** Further properties of the backtrace *)

Module WalkFacts.

(** The walk along a chain prints what [backtrace_output] says. *)
Lemma loop_output (k : Kernel) (ebp : Z) (frames : list Z) :
  chain k ebp frames ->
  forall (fuel : nat) (info : Eipdebuginfo),
    (length frames < fuel)%nat ->
    option_map fst (backtrace_loop k fuel ebp info)
    = Some (backtrace_output k frames info).
Proof.
  induction 1 as [|ebp frames Hnz Hch IH]; intros fuel info Hf.
  - destruct fuel as [|fuel]; [simpl in Hf; lia | reflexivity].
  - destruct fuel as [|fuel]; [simpl in Hf; lia|].
    rewrite BacktraceFacts.loop_unfold by exact Hnz.
    cbn [backtrace_output]. cbv zeta.
    destruct (debuginfo_eip k (load k (ebp + 4)) info) as [r info'].
    assert (Hf' : (length frames < fuel)%nat) by (simpl in Hf; lia).
    specialize (IH fuel info' Hf').
    destruct (backtrace_loop k fuel (load k ebp) info') as [[out calls]|];
      [|discriminate].
    simpl in IH. injection IH as ->. reflexivity.
Qed.

(** When no lookup succeeds, only the frame lines are printed. *)
Lemma output_unresolved (k : Kernel) (frames : list Z) :
  (forall eip info, fst (debuginfo_eip k eip info) <> 0) ->
  forall info,
    backtrace_output k frames info = flat_map (frame_line k) frames.
Proof.
  intros Hmiss. induction frames as [|ebp frames IH]; intros info;
    [reflexivity|].
  cbn [backtrace_output flat_map]. cbv zeta.
  specialize (Hmiss (load k (ebp + 4)) info).
  destruct (debuginfo_eip k (load k (ebp + 4)) info) as [r info'].
  simpl in Hmiss. apply Z.eqb_neq in Hmiss. rewrite Hmiss.
  now rewrite IH.
Qed.

(** A walk that ends has followed a chain. *)
Lemma loop_returns (k : Kernel) (fuel : nat) :
  forall (ebp : Z) (info : Eipdebuginfo) out calls,
    backtrace_loop k fuel ebp info = Some (out, calls) ->
    exists frames,
      chain k ebp frames
      /\ (length frames < fuel)%nat
      /\ length calls = length frames.
Proof.
  induction fuel as [|fuel IH]; intros ebp info out calls H; [discriminate|].
  cbn [backtrace_loop] in H. destruct (Z.eqb_spec ebp 0) as [->|Hnz].
  - injection H as <- <-. exists []. repeat split.
    + constructor.
    + simpl. lia.
  - destruct (debuginfo_eip k (load k (ebp + 4)) info) as [r info'].
    destruct (backtrace_loop k fuel (load k ebp) info')
      as [[out' calls']|] eqn:E; [|discriminate].
    injection H as <- <-.
    destruct (IH _ _ _ _ E) as (frames & Hch & Hlen & Hc).
    exists (ebp :: frames). repeat split.
    + now constructor.
    + simpl. lia.
    + simpl. now rewrite Hc.
Qed.

End WalkFacts.

(** X14. On a frame-pointer chain that ends, what [mon_backtrace] prints
    is, frame after frame: the line of the frame, and after it the symbol
    line exactly when [debuginfo_eip] returned 0 for the return address of
    the frame, showing the record that very lookup left. When no lookup
    succeeds, the output is the frame lines and nothing else. *)
Theorem backtrace_output_exact (k : Kernel) (fuel : nat) (argc : Z)
    (argv : list string) (frames : list Z) :
  chain k (uint32 (read_ebp k)) frames ->
  (length frames < fuel)%nat ->
  mon_backtrace k fuel argc argv
  = Some (0, backtrace_output k frames zero_info)
  /\ ((forall eip info, fst (debuginfo_eip k eip info) <> 0) ->
      mon_backtrace k fuel argc argv
      = Some (0, flat_map (frame_line k) frames)).
Proof.
  intros Hch Hf.
  pose proof (WalkFacts.loop_output k _ _ Hch fuel zero_info Hf) as H.
  unfold mon_backtrace, backtrace.
  destruct (backtrace_loop k fuel (uint32 (read_ebp k)) zero_info)
    as [[out calls]|]; [|discriminate].
  simpl in H. injection H as ->. split; [reflexivity|].
  intros Hmiss. now rewrite WalkFacts.output_unresolved.
Qed.

Lemma backtrace_output_exact_witness :
  mon_backtrace three_frames 4%nat 1 ["backtrace"]
  = Some (0, backtrace_output three_frames [0x3000; 0x2000; 0x1000] zero_info).
Proof.
  apply (backtrace_output_exact three_frames 4 1 ["backtrace"]).
  - exact three_frames_chain.
  - simpl. lia.
Defined.

(** X15. [mon_backtrace] returns only on a frame-pointer chain that ends:
    when it returns, the frames it has shown form such a chain from the
    current frame pointer on, shorter than the number of iterations it was
    given, and [debuginfo_eip] was called once for each of them. *)
Theorem backtrace_returns_on_chain (k : Kernel) (fuel : nat)
    (out : Console) (calls : list Lookup) :
  backtrace k fuel = Some (out, calls) ->
  exists frames,
    chain k (uint32 (read_ebp k)) frames
    /\ (length frames < fuel)%nat
    /\ length calls = length frames
    /\ out = backtrace_output k frames zero_info.
Proof.
  intros H. unfold backtrace in H.
  destruct (WalkFacts.loop_returns _ _ _ _ _ _ H) as (frames & Hch & Hf & Hc).
  exists frames. repeat split; auto.
  pose proof (WalkFacts.loop_output k _ _ Hch fuel zero_info Hf) as Ho.
  rewrite H in Ho. simpl in Ho. now injection Ho.
Qed.

Lemma backtrace_returns_on_chain_witness :
  exists out calls frames,
    backtrace three_frames 7 = Some (out, calls)
    /\ chain three_frames (uint32 (read_ebp three_frames)) frames
    /\ (length frames < 7)%nat
    /\ length calls = length frames
    /\ out = backtrace_output three_frames frames zero_info.
Proof.
  destruct (backtrace three_frames 7) as [[out calls]|] eqn:E;
    [|vm_compute in E; discriminate E].
  destruct (backtrace_returns_on_chain three_frames 7 out calls E)
    as (frames & H).
  exists out, calls, frames. split; [reflexivity | exact H].
Defined.

(** ** Further properties of [mon_help] and [mon_kerninfo] *)

(** X16. Whatever its arguments, [mon_help] prints one line for each
    entry of the table [commands], in the order of the table, with the
    name and the description of the entry, and returns 0; so does the
    command line that starts with help, with up to 14 further tokens. The
    names of the table are distinct. *)
Theorem help_lists_commands (k : Kernel) (fuel : nat) (line : string)
    (rest : list string) :
  words line = "help" :: rest ->
  (length rest <= 14)%nat ->
  let listing :=
    map (fun c => Cprintf ("%s - %s" ++ nl) [AStr (name c); AStr (desc c)])
        commands in
  (forall argc argv, mon_help k fuel argc argv = Some (0, listing))
  /\ runcmd k fuel line = Some (0, listing)
  /\ NoDup (map name commands).
Proof.
  intros Hw Hn listing. split; [reflexivity|]. split.
  - unfold runcmd, runcmd_with. rewrite TokenizerFacts.tokenize_words, Hw.
    replace (length ("help" :: rest) <=? 15)%nat with true
      by (symmetry; apply Nat.leb_le; simpl; lia).
    reflexivity.
  - simpl. repeat constructor; simpl; intuition discriminate.
Qed.

Lemma help_lists_commands_witness :
  runcmd looping 0 " help me please "
  = Some (0, map (fun c => Cprintf ("%s - %s" ++ nl)
                                   [AStr (name c); AStr (desc c)])
                 commands).
Proof.
  apply (help_lists_commands looping 0 " help me please " ["me"; "please"]).
  - reflexivity.
  - simpl. lia.
Defined.

(** X17. When the kernel symbols lie at or above [KERNBASE], [entry] is
    not above [end] and less than 2 GB below it, [mon_kerninfo] shows for
    each symbol its address and that address less [KERNBASE], and as the
    footprint the distance from [entry] to [end] in KB, rounded up. *)
Theorem kerninfo_output (k : Kernel) (fuel : nat) (argc : Z)
    (argv : list string) :
  (forall a, In a [sym_entry k; sym_etext k; sym_edata k; sym_end k] ->
             KERNBASE k <= a < KERNBASE k + modulus) ->
  0 <= sym_end k - sym_entry k <= 2 ^ 31 - 1024 ->
  mon_kerninfo k fuel argc argv
  = Some (0,
      [ Cprintf ("Special kernel symbols:" ++ nl) [];
        Cprintf ("  _start                  %08x (phys)" ++ nl)
                [AInt (sym_start k)];
        Cprintf ("  entry  %08x (virt)  %08x (phys)" ++ nl)
                [AInt (sym_entry k); AInt (sym_entry k - KERNBASE k)];
        Cprintf ("  etext  %08x (virt)  %08x (phys)" ++ nl)
                [AInt (sym_etext k); AInt (sym_etext k - KERNBASE k)];
        Cprintf ("  edata  %08x (virt)  %08x (phys)" ++ nl)
                [AInt (sym_edata k); AInt (sym_edata k - KERNBASE k)];
        Cprintf ("  end    %08x (virt)  %08x (phys)" ++ nl)
                [AInt (sym_end k); AInt (sym_end k - KERNBASE k)];
        Cprintf ("Kernel executable memory footprint: %dKB" ++ nl)
                [AInt ((sym_end k - sym_entry k + 1023) / 1024)] ]).
Proof.
  intros Hsym Hd. unfold mon_kerninfo.
  assert (Hphys : forall a,
            In a [sym_entry k; sym_etext k; sym_edata k; sym_end k] ->
            uint32 (a - KERNBASE k) = a - KERNBASE k).
  { intros a Ha. apply uint32_small. specialize (Hsym a Ha). lia. }
  rewrite !Hphys by (simpl; tauto).
  assert (Hfoot : Z.quot (int32 (ROUNDUP (sym_end k - sym_entry k) 1024)) 1024
                  = (sym_end k - sym_entry k + 1023) / 1024).
  { generalize dependent (sym_end k - sym_entry k). intros d Hd.
    unfold ROUNDUP, ROUNDDOWN, int32, uint32, modulus.
    rewrite (Z.mod_small 1024) by lia.
    rewrite (Z.mod_small d) by lia.
    rewrite !(Z.mod_small (d + 1024 - 1)) by lia.
    assert (Hr : 0 <= d + 1024 - 1 - (d + 1024 - 1) mod 1024 < 2 ^ 31)
      by (Z.div_mod_to_equations; lia).
    rewrite !(Z.mod_small (d + 1024 - 1 - (d + 1024 - 1) mod 1024)) by lia.
    destruct (Z.ltb_spec (d + 1024 - 1 - (d + 1024 - 1) mod 1024) (2 ^ 31));
      [|lia].
    rewrite Z.quot_div_nonneg by lia.
    Z.div_mod_to_equations. lia. }
  now rewrite Hfoot.
Qed.

Lemma kerninfo_output_witness :
  exists out,
    mon_kerninfo idle 0%nat 1 ["kerninfo"] = Some (0, out)
    /\ nth_error out 6
       = Some (Cprintf ("Kernel executable memory footprint: %dKB" ++ nl)
                       [AInt 75]).
Proof.
  eexists. split.
  - apply (kerninfo_output idle 0 1 ["kerninfo"]).
    + simpl. intros a [<-|[<-|[<-|[<-|[]]]]]; unfold modulus; lia.
    + simpl. lia.
  - reflexivity.
Defined.
